(** * PyChain ledger: a shallow embedding of [pychain.py]

    The development follows the layout of the Python module:
    - [Sha256]: the digest computed by [hashlib.sha256] (FIPS 180-4), over
      32-bit words represented in [Z] with the wrap-around written out;
    - [PyText]: the textual forms produced by [str], [repr] and
      [strftime('%H:%M:%S')];
    - the data classes [Record], [Block] and [PyChain];
    - the operations [hash_block], [proof_of_work], [add_block], [is_valid]
      and [setup], over a store of block objects, because Python blocks
      are mutable objects that the chain list holds by reference.

    A Python [str] is represented by the bytes of its UTF-8 form, so that
    [.encode()] is the identity on the representation; a [str] that holds
    a lone surrogate has no such form and is not represented. Python [int]
    values are in [Z], and [str] of an [int] writes all its digits (the cap
    that the interpreter can put on their number is a setting, left out).
    Texts fit the memory. What the methods print is left out. A [while]
    loop runs on fuel, one unit for each iteration. *)

From Stdlib Require Import ZArith List String Ascii DecimalString DecimalPos DecimalZ Lia Bool.
From stdpp Require Import gmap strings list.

Local Open Scope Z_scope.

(** ** SHA-256 *)

Module Sha256.

Definition word_mod : Z := 2 ^ 32.

(** Addition of 32-bit words wraps around. *)
Definition wadd (x y : Z) : Z := (x + y) mod word_mod.

Definition shr (n x : Z) : Z := Z.shiftr x n.

Definition rotr (n x : Z) : Z :=
  Z.lor (Z.shiftr x n) ((Z.shiftl x (32 - n)) mod word_mod).

Definition wnot (x : Z) : Z := word_mod - 1 - x.

Definition Ch (x y z : Z) : Z := Z.lxor (Z.land x y) (Z.land (wnot x) z).

Definition Maj (x y z : Z) : Z :=
  Z.lxor (Z.lxor (Z.land x y) (Z.land x z)) (Z.land y z).

Definition Sigma0 (x : Z) : Z :=
  Z.lxor (Z.lxor (rotr 2 x) (rotr 13 x)) (rotr 22 x).

Definition Sigma1 (x : Z) : Z :=
  Z.lxor (Z.lxor (rotr 6 x) (rotr 11 x)) (rotr 25 x).

Definition sigma0 (x : Z) : Z :=
  Z.lxor (Z.lxor (rotr 7 x) (rotr 18 x)) (shr 3 x).

Definition sigma1 (x : Z) : Z :=
  Z.lxor (Z.lxor (rotr 17 x) (rotr 19 x)) (shr 10 x).

(** The primes below [bound], in increasing order. *)
Definition is_prime (n : Z) : bool :=
  (1 <? n) && forallb (fun d => negb (n mod d =? 0)) (seqZ 2 (n - 2)).

Definition primes_below (bound : Z) : list Z :=
  filter (fun n => is_prime n = true) (seqZ 0 bound).

(** The integer part of the [k]-th root of [n], found bit by bit below
    [2 ^ bits]. *)
Fixpoint iroot (k n : Z) (bits : nat) (r : Z) : Z :=
  match bits with
  | O => r
  | S i =>
      let r' := r + 2 ^ Z.of_nat i in
      iroot k n i (if r' ^ k <=? n then r' else r)
  end.

(** The first 32 bits of the fractional part of the [k]-th root of [p]. *)
Definition frac_root (k p : Z) : Z :=
  iroot k (p * 2 ^ (32 * k)) 40 0 mod word_mod.

(** The round constants come from the cube roots of the first 64 primes,
    the initial hash value from the square roots of the first 8. *)
Definition K : list Z :=
  Eval vm_compute in map (frac_root 3) (primes_below 312).

Definition H0 : list Z :=
  Eval vm_compute in map (frac_root 2) (primes_below 20).

(** Big-endian bytes of the low [n] bytes of [x]. *)
Fixpoint be_bytes (n : nat) (x : Z) : list Z :=
  match n with
  | O => []
  | S n' => ((x / 256 ^ Z.of_nat n') mod 256) :: be_bytes n' x
  end.

(** Padding: a 1 bit, zeros up to 56 modulo 64 bytes, then the length of
    the message in bits on 64 bits. *)
Definition pad (msg : list Z) : list Z :=
  let len := Z.of_nat (length msg) in
  let zeros := Z.to_nat ((55 - len) mod 64) in
  msg ++ [0x80] ++ repeat 0 zeros ++ be_bytes 8 (8 * len).

Fixpoint words_of_bytes (fuel : nat) (bs : list Z) : list Z :=
  match fuel, bs with
  | S fuel', b0 :: b1 :: b2 :: b3 :: rest =>
      (((b0 * 256 + b1) * 256 + b2) * 256 + b3) :: words_of_bytes fuel' rest
  | _, _ => []
  end.

(** The message schedule, most recent word first: [sched] holds
    W(t-1), W(t-2), ... and is extended up to 64 words. *)
Fixpoint extend (n : nat) (sched : list Z) : list Z :=
  match n with
  | O => sched
  | S n' =>
      let w := wadd (wadd (sigma1 (nth 1 sched 0)) (nth 6 sched 0))
                    (wadd (sigma0 (nth 14 sched 0)) (nth 15 sched 0)) in
      extend n' (w :: sched)
  end.

Definition schedule (block : list Z) : list Z :=
  rev (extend 48 (rev block)).

Record regs := Regs { ra : Z; rb : Z; rc : Z; rd : Z;
                      re : Z; rf : Z; rg : Z; rh : Z }.

Definition round (s : regs) (kw : Z * Z) : regs :=
  let '(k, w) := kw in
  let t1 := wadd (wadd (wadd (rh s) (Sigma1 (re s)))
                       (wadd (Ch (re s) (rf s) (rg s)) k)) w in
  let t2 := wadd (Sigma0 (ra s)) (Maj (ra s) (rb s) (rc s)) in
  Regs (wadd t1 t2) (ra s) (rb s) (rc s) (wadd (rd s) t1) (re s) (rf s) (rg s).

Definition regs_of (h : list Z) : regs :=
  Regs (nth 0 h 0) (nth 1 h 0) (nth 2 h 0) (nth 3 h 0)
       (nth 4 h 0) (nth 5 h 0) (nth 6 h 0) (nth 7 h 0).

Definition list_of (s : regs) : list Z :=
  [ra s; rb s; rc s; rd s; re s; rf s; rg s; rh s].

Definition compress (h : list Z) (block : list Z) : list Z :=
  let s := fold_left round (combine K (schedule block)) (regs_of h) in
  map (fun p : Z * Z => wadd (fst p) (snd p)) (combine h (list_of s)).

Fixpoint blocks (fuel : nat) (h : list Z) (ws : list Z) : list Z :=
  match fuel with
  | O => h
  | S fuel' =>
      match ws with
      | [] => h
      | _ => blocks fuel' (compress h (take 16 ws)) (drop 16 ws)
      end
  end.

(** The 32-byte digest of a message given as a list of byte values. *)
Definition digest (msg : list Z) : list Z :=
  let p := pad msg in
  let ws := words_of_bytes (length p) p in
  flat_map (be_bytes 4) (blocks (length ws) H0 ws).

Definition hex_digit (d : Z) : ascii :=
  ascii_of_N (Z.to_N (if d <? 10 then 48 + d else 87 + d)).

Fixpoint hex (bs : list Z) : string :=
  match bs with
  | [] => EmptyString
  | b :: rest => String (hex_digit (b / 16)) (String (hex_digit (b mod 16)) (hex rest))
  end.

Fixpoint bytes_of_string (s : string) : list Z :=
  match s with
  | EmptyString => []
  | String c rest => Z.of_N (N_of_ascii c) :: bytes_of_string rest
  end.

(** [hashlib.sha256(data).hexdigest()]. *)
Definition hexdigest (data : string) : string :=
  hex (digest (bytes_of_string data)).

End Sha256.

(** ** Outcomes *)

Inductive exn : Type :=
| IndexError
| OverflowError.

(** What a call does: return, raise, still loop when the fuel is spent, or
    follow a reference to no object (which no Python execution does). *)
Inductive outcome (A : Type) : Type :=
| Returns (a : A)
| Raises (e : exn)
| OutOfFuel
| Stuck.

Arguments Returns {A} a.
Arguments Raises {A} e.
Arguments OutOfFuel {A}.
Arguments Stuck {A}.

#[global] Instance outcome_ret : MRet outcome := fun A a => Returns a.

#[global] Instance outcome_bind : MBind outcome := fun A B f m =>
  match m with
  | Returns a => f a
  | Raises e => Raises e
  | OutOfFuel => OutOfFuel
  | Stuck => Stuck
  end.

(** ** Textual forms: [str], [repr], [strftime] *)

Module PyText.

Local Open Scope string_scope.

(** [str(n)] for a Python [int]: decimal digits, with a minus sign. *)
Definition str_int (n : Z) : string :=
  DecimalString.NilZero.string_of_int (Z.to_int n).

(** [n] copies of [s] end to end. *)
Fixpoint str_repeat (s : string) (n : nat) : string :=
  match n with
  | O => ""
  | S n' => s ++ str_repeat s n'
  end.

(** The range of [Py_ssize_t], the type of the counts and indices of the
    interpreter, on a 64-bit build. *)
Definition PY_SSIZE_T_MAX : Z := Eval vm_compute in (2 ^ 63 - 1)%Z.
Definition PY_SSIZE_T_MIN : Z := Eval vm_compute in (- 2 ^ 63)%Z.

Definition fits_ssize_t (n : Z) : bool :=
  (PY_SSIZE_T_MIN <=? n)%Z && (n <=? PY_SSIZE_T_MAX)%Z.

(** [s * n]: the count is converted to [Py_ssize_t], which raises
    OverflowError when it does not fit; then [n] copies of [s], none when
    [n] is zero or negative. The text is taken to fit the memory. *)
Definition str_mul (s : string) (n : Z) : outcome string :=
  if fits_ssize_t n then Returns (str_repeat s (Z.to_nat n))
  else Raises OverflowError.

(** [s.startswith(p)]. *)
Definition startswith (s p : string) : bool := String.prefix p s.

Definition squote : ascii := "'"%char.
Definition dquote : ascii := "034"%char.
Definition backslash : ascii := "\"%char.

Fixpoint contains (c : ascii) (s : string) : bool :=
  match s with
  | EmptyString => false
  | String c' rest => Ascii.eqb c c' || contains c rest
  end.

Definition byte_of (c : ascii) : Z := Z.of_N (N_of_ascii c).

(** The text with the given bytes. *)
Definition text (bytes : list Z) : string :=
  fold_right (fun b s => String (ascii_of_N (Z.to_N b)) s) "" bytes.

(** [k] continuation bytes, each of the form 10xxxxxx, add six bits each
    to [acc]. *)
Fixpoint continuation (k : nat) (acc : Z) (s : string) : option Z :=
  match k with
  | O => Some acc
  | S k' =>
      match s with
      | EmptyString => None
      | String c rest =>
          let n := byte_of c in
          if (0x80 <=? n)%Z && (n <? 0xC0)%Z
          then continuation k' (acc * 64 + (n - 0x80))%Z rest
          else None
      end
  end.

(** The character at the head of a text: its code point and the number of
    bytes of its UTF-8 form. As for the interpreter, a form longer than
    needed, a surrogate and a value above 0x10FFFF are no character. *)
Definition utf8_head (s : string) : option (Z * nat) :=
  match s with
  | EmptyString => None
  | String c rest =>
      let n := byte_of c in
      if (n <? 0x80)%Z then Some (n, 1%nat)
      else if (0xC0 <=? n)%Z && (n <? 0xE0)%Z then
        match continuation 1 (n - 0xC0)%Z rest with
        | Some cp => if (0x80 <=? cp)%Z then Some (cp, 2%nat) else None
        | None => None
        end
      else if (0xE0 <=? n)%Z && (n <? 0xF0)%Z then
        match continuation 2 (n - 0xE0)%Z rest with
        | Some cp =>
            if (0x800 <=? cp)%Z && negb ((0xD800 <=? cp)%Z && (cp <=? 0xDFFF)%Z)
            then Some (cp, 3%nat) else None
        | None => None
        end
      else if (0xF0 <=? n)%Z && (n <? 0xF8)%Z then
        match continuation 3 (n - 0xF0)%Z rest with
        | Some cp =>
            if (0x10000 <=? cp)%Z && (cp <=? 0x10FFFF)%Z
            then Some (cp, 4%nat) else None
        | None => None
        end
      else None
  end.

(** The code points that [str.isprintable] rejects, as ranges: those of
    the general categories Cc, Cf, Cs, Co, Cn, Zl, Zp and Zs, the space
    apart (Unicode 14.0.0, the database of CPython 3.11). *)
Definition not_printable : list (Z * Z) :=
  [(0, 31); (127, 160); (173, 173); (888, 889); (896, 899); (907, 907);
   (909, 909); (930, 930); (1328, 1328); (1367, 1368); (1419, 1420);
   (1424, 1424); (1480, 1487); (1515, 1518); (1525, 1541); (1564, 1564);
   (1757, 1757); (1806, 1807); (1867, 1868); (1970, 1983); (2043, 2044);
   (2094, 2095); (2111, 2111); (2140, 2141); (2143, 2143); (2155, 2159);
   (2191, 2199); (2274, 2274); (2436, 2436); (2445, 2446); (2449, 2450);
   (2473, 2473); (2481, 2481); (2483, 2485); (2490, 2491); (2501, 2502);
   (2505, 2506); (2511, 2518); (2520, 2523); (2526, 2526); (2532, 2533);
   (2559, 2560); (2564, 2564); (2571, 2574); (2577, 2578); (2601, 2601);
   (2609, 2609); (2612, 2612); (2615, 2615); (2618, 2619); (2621, 2621);
   (2627, 2630); (2633, 2634); (2638, 2640); (2642, 2648); (2653, 2653);
   (2655, 2661); (2679, 2688); (2692, 2692); (2702, 2702); (2706, 2706);
   (2729, 2729); (2737, 2737); (2740, 2740); (2746, 2747); (2758, 2758);
   (2762, 2762); (2766, 2767); (2769, 2783); (2788, 2789); (2802, 2808);
   (2816, 2816); (2820, 2820); (2829, 2830); (2833, 2834); (2857, 2857);
   (2865, 2865); (2868, 2868); (2874, 2875); (2885, 2886); (2889, 2890);
   (2894, 2900); (2904, 2907); (2910, 2910); (2916, 2917); (2936, 2945);
   (2948, 2948); (2955, 2957); (2961, 2961); (2966, 2968); (2971, 2971);
   (2973, 2973); (2976, 2978); (2981, 2983); (2987, 2989); (3002, 3005);
   (3011, 3013); (3017, 3017); (3022, 3023); (3025, 3030); (3032, 3045);
   (3067, 3071); (3085, 3085); (3089, 3089); (3113, 3113); (3130, 3131);
   (3141, 3141); (3145, 3145); (3150, 3156); (3159, 3159); (3163, 3164);
   (3166, 3167); (3172, 3173); (3184, 3190); (3213, 3213); (3217, 3217);
   (3241, 3241); (3252, 3252); (3258, 3259); (3269, 3269); (3273, 3273);
   (3278, 3284); (3287, 3292); (3295, 3295); (3300, 3301); (3312, 3312);
   (3315, 3327); (3341, 3341); (3345, 3345); (3397, 3397); (3401, 3401);
   (3408, 3411); (3428, 3429); (3456, 3456); (3460, 3460); (3479, 3481);
   (3506, 3506); (3516, 3516); (3518, 3519); (3527, 3529); (3531, 3534);
   (3541, 3541); (3543, 3543); (3552, 3557); (3568, 3569); (3573, 3584);
   (3643, 3646); (3676, 3712); (3715, 3715); (3717, 3717); (3723, 3723);
   (3748, 3748); (3750, 3750); (3774, 3775); (3781, 3781); (3783, 3783);
   (3790, 3791); (3802, 3803); (3808, 3839); (3912, 3912); (3949, 3952);
   (3992, 3992); (4029, 4029); (4045, 4045); (4059, 4095); (4294, 4294);
   (4296, 4300); (4302, 4303); (4681, 4681); (4686, 4687); (4695, 4695);
   (4697, 4697); (4702, 4703); (4745, 4745); (4750, 4751); (4785, 4785);
   (4790, 4791); (4799, 4799); (4801, 4801); (4806, 4807); (4823, 4823);
   (4881, 4881); (4886, 4887); (4955, 4956); (4989, 4991); (5018, 5023);
   (5110, 5111); (5118, 5119); (5760, 5760); (5789, 5791); (5881, 5887);
   (5910, 5918); (5943, 5951); (5972, 5983); (5997, 5997); (6001, 6001);
   (6004, 6015); (6110, 6111); (6122, 6127); (6138, 6143); (6158, 6158);
   (6170, 6175); (6265, 6271); (6315, 6319); (6390, 6399); (6431, 6431);
   (6444, 6447); (6460, 6463); (6465, 6467); (6510, 6511); (6517, 6527);
   (6572, 6575); (6602, 6607); (6619, 6621); (6684, 6685); (6751, 6751);
   (6781, 6782); (6794, 6799); (6810, 6815); (6830, 6831); (6863, 6911);
   (6989, 6991); (7039, 7039); (7156, 7163); (7224, 7226); (7242, 7244);
   (7305, 7311); (7355, 7356); (7368, 7375); (7419, 7423); (7958, 7959);
   (7966, 7967); (8006, 8007); (8014, 8015); (8024, 8024); (8026, 8026);
   (8028, 8028); (8030, 8030); (8062, 8063); (8117, 8117); (8133, 8133);
   (8148, 8149); (8156, 8156); (8176, 8177); (8181, 8181); (8191, 8207);
   (8232, 8239); (8287, 8303); (8306, 8307); (8335, 8335); (8349, 8351);
   (8385, 8399); (8433, 8447); (8588, 8591); (9255, 9279); (9291, 9311);
   (11124, 11125); (11158, 11158); (11508, 11512); (11558, 11558);
   (11560, 11564); (11566, 11567); (11624, 11630); (11633, 11646);
   (11671, 11679); (11687, 11687); (11695, 11695); (11703, 11703);
   (11711, 11711); (11719, 11719); (11727, 11727); (11735, 11735);
   (11743, 11743); (11870, 11903); (11930, 11930); (12020, 12031);
   (12246, 12271); (12284, 12288); (12352, 12352); (12439, 12440);
   (12544, 12548); (12592, 12592); (12687, 12687); (12772, 12783);
   (12831, 12831); (42125, 42127); (42183, 42191); (42540, 42559);
   (42744, 42751); (42955, 42959); (42962, 42962); (42964, 42964);
   (42970, 42993); (43053, 43055); (43066, 43071); (43128, 43135);
   (43206, 43213); (43226, 43231); (43348, 43358); (43389, 43391);
   (43470, 43470); (43482, 43485); (43519, 43519); (43575, 43583);
   (43598, 43599); (43610, 43611); (43715, 43738); (43767, 43776);
   (43783, 43784); (43791, 43792); (43799, 43807); (43815, 43815);
   (43823, 43823); (43884, 43887); (44014, 44015); (44026, 44031);
   (55204, 55215); (55239, 55242); (55292, 63743); (64110, 64111);
   (64218, 64255); (64263, 64274); (64280, 64284); (64311, 64311);
   (64317, 64317); (64319, 64319); (64322, 64322); (64325, 64325);
   (64451, 64466); (64912, 64913); (64968, 64974); (64976, 65007);
   (65050, 65055); (65107, 65107); (65127, 65127); (65132, 65135);
   (65141, 65141); (65277, 65280); (65471, 65473); (65480, 65481);
   (65488, 65489); (65496, 65497); (65501, 65503); (65511, 65511);
   (65519, 65531); (65534, 65535); (65548, 65548); (65575, 65575);
   (65595, 65595); (65598, 65598); (65614, 65615); (65630, 65663);
   (65787, 65791); (65795, 65798); (65844, 65846); (65935, 65935);
   (65949, 65951); (65953, 65999); (66046, 66175); (66205, 66207);
   (66257, 66271); (66300, 66303); (66340, 66348); (66379, 66383);
   (66427, 66431); (66462, 66462); (66500, 66503); (66518, 66559);
   (66718, 66719); (66730, 66735); (66772, 66775); (66812, 66815);
   (66856, 66863); (66916, 66926); (66939, 66939); (66955, 66955);
   (66963, 66963); (66966, 66966); (66978, 66978); (66994, 66994);
   (67002, 67002); (67005, 67071); (67383, 67391); (67414, 67423);
   (67432, 67455); (67462, 67462); (67505, 67505); (67515, 67583);
   (67590, 67591); (67593, 67593); (67638, 67638); (67641, 67643);
   (67645, 67646); (67670, 67670); (67743, 67750); (67760, 67807);
   (67827, 67827); (67830, 67834); (67868, 67870); (67898, 67902);
   (67904, 67967); (68024, 68027); (68048, 68049); (68100, 68100);
   (68103, 68107); (68116, 68116); (68120, 68120); (68150, 68151);
   (68155, 68158); (68169, 68175); (68185, 68191); (68256, 68287);
   (68327, 68330); (68343, 68351); (68406, 68408); (68438, 68439);
   (68467, 68471); (68498, 68504); (68509, 68520); (68528, 68607);
   (68681, 68735); (68787, 68799); (68851, 68857); (68904, 68911);
   (68922, 69215); (69247, 69247); (69290, 69290); (69294, 69295);
   (69298, 69375); (69416, 69423); (69466, 69487); (69514, 69551);
   (69580, 69599); (69623, 69631); (69710, 69713); (69750, 69758);
   (69821, 69821); (69827, 69839); (69865, 69871); (69882, 69887);
   (69941, 69941); (69960, 69967); (70007, 70015); (70112, 70112);
   (70133, 70143); (70162, 70162); (70207, 70271); (70279, 70279);
   (70281, 70281); (70286, 70286); (70302, 70302); (70314, 70319);
   (70379, 70383); (70394, 70399); (70404, 70404); (70413, 70414);
   (70417, 70418); (70441, 70441); (70449, 70449); (70452, 70452);
   (70458, 70458); (70469, 70470); (70473, 70474); (70478, 70479);
   (70481, 70486); (70488, 70492); (70500, 70501); (70509, 70511);
   (70517, 70655); (70748, 70748); (70754, 70783); (70856, 70863);
   (70874, 71039); (71094, 71095); (71134, 71167); (71237, 71247);
   (71258, 71263); (71277, 71295); (71354, 71359); (71370, 71423);
   (71451, 71452); (71468, 71471); (71495, 71679); (71740, 71839);
   (71923, 71934); (71943, 71944); (71946, 71947); (71956, 71956);
   (71959, 71959); (71990, 71990); (71993, 71994); (72007, 72015);
   (72026, 72095); (72104, 72105); (72152, 72153); (72165, 72191);
   (72264, 72271); (72355, 72367); (72441, 72703); (72713, 72713);
   (72759, 72759); (72774, 72783); (72813, 72815); (72848, 72849);
   (72872, 72872); (72887, 72959); (72967, 72967); (72970, 72970);
   (73015, 73017); (73019, 73019); (73022, 73022); (73032, 73039);
   (73050, 73055); (73062, 73062); (73065, 73065); (73103, 73103);
   (73106, 73106); (73113, 73119); (73130, 73439); (73465, 73647);
   (73649, 73663); (73714, 73726); (74650, 74751); (74863, 74863);
   (74869, 74879); (75076, 77711); (77811, 77823); (78895, 82943);
   (83527, 92159); (92729, 92735); (92767, 92767); (92778, 92781);
   (92863, 92863); (92874, 92879); (92910, 92911); (92918, 92927);
   (92998, 93007); (93018, 93018); (93026, 93026); (93048, 93052);
   (93072, 93759); (93851, 93951); (94027, 94030); (94088, 94094);
   (94112, 94175); (94181, 94191); (94194, 94207); (100344, 100351);
   (101590, 101631); (101641, 110575); (110580, 110580); (110588, 110588);
   (110591, 110591); (110883, 110927); (110931, 110947); (110952, 110959);
   (111356, 113663); (113771, 113775); (113789, 113791); (113801, 113807);
   (113818, 113819); (113824, 118527); (118574, 118575); (118599, 118607);
   (118724, 118783); (119030, 119039); (119079, 119080); (119155, 119162);
   (119275, 119295); (119366, 119519); (119540, 119551); (119639, 119647);
   (119673, 119807); (119893, 119893); (119965, 119965); (119968, 119969);
   (119971, 119972); (119975, 119976); (119981, 119981); (119994, 119994);
   (119996, 119996); (120004, 120004); (120070, 120070); (120075, 120076);
   (120085, 120085); (120093, 120093); (120122, 120122); (120127, 120127);
   (120133, 120133); (120135, 120137); (120145, 120145); (120486, 120487);
   (120780, 120781); (121484, 121498); (121504, 121504); (121520, 122623);
   (122655, 122879); (122887, 122887); (122905, 122906); (122914, 122914);
   (122917, 122917); (122923, 123135); (123181, 123183); (123198, 123199);
   (123210, 123213); (123216, 123535); (123567, 123583); (123642, 123646);
   (123648, 124895); (124903, 124903); (124908, 124908); (124911, 124911);
   (124927, 124927); (125125, 125126); (125143, 125183); (125260, 125263);
   (125274, 125277); (125280, 126064); (126133, 126208); (126270, 126463);
   (126468, 126468); (126496, 126496); (126499, 126499); (126501, 126502);
   (126504, 126504); (126515, 126515); (126520, 126520); (126522, 126522);
   (126524, 126529); (126531, 126534); (126536, 126536); (126538, 126538);
   (126540, 126540); (126544, 126544); (126547, 126547); (126549, 126550);
   (126552, 126552); (126554, 126554); (126556, 126556); (126558, 126558);
   (126560, 126560); (126563, 126563); (126565, 126566); (126571, 126571);
   (126579, 126579); (126584, 126584); (126589, 126589); (126591, 126591);
   (126602, 126602); (126620, 126624); (126628, 126628); (126634, 126634);
   (126652, 126703); (126706, 126975); (127020, 127023); (127124, 127135);
   (127151, 127152); (127168, 127168); (127184, 127184); (127222, 127231);
   (127406, 127461); (127491, 127503); (127548, 127551); (127561, 127567);
   (127570, 127583); (127590, 127743); (128728, 128732); (128749, 128751);
   (128765, 128767); (128884, 128895); (128985, 128991); (129004, 129007);
   (129009, 129023); (129036, 129039); (129096, 129103); (129114, 129119);
   (129160, 129167); (129198, 129199); (129202, 129279); (129620, 129631);
   (129646, 129647); (129653, 129655); (129661, 129663); (129671, 129679);
   (129709, 129711); (129723, 129727); (129734, 129743); (129754, 129759);
   (129768, 129775); (129783, 129791); (129939, 129939); (129995, 130031);
   (130042, 131071); (173792, 173823); (177977, 177983); (178206, 178207);
   (183970, 183983); (191457, 194559); (195102, 196607); (201547, 917759);
   (918000, 1114111)].

Definition isprintable (cp : Z) : bool :=
  negb (existsb (fun r : Z * Z => (fst r <=? cp)%Z && (cp <=? snd r)%Z) not_printable).

(** [n] bytes of [cp] in lower-case hexadecimal digits. *)
Definition hex_of (n : nat) (cp : Z) : string := Sha256.hex (Sha256.be_bytes n cp).

(** The escape of the character [cp] inside [repr] of a [str] delimited by
    [quote], or [None] when the character is written as it is: the quote
    and the backslash get a backslash; tab, newline and return their
    letter; the other ASCII controls two hexadecimal digits; and a
    character outside ASCII that is not printable two, four or eight
    digits, by its size. *)
Definition escape (quote : ascii) (cp : Z) : option string :=
  if (cp =? byte_of quote)%Z then Some (String backslash (String quote ""))
  else if (cp =? byte_of backslash)%Z then Some (String backslash (String backslash ""))
  else if (cp =? 9)%Z then Some (String backslash "t")
  else if (cp =? 10)%Z then Some (String backslash "n")
  else if (cp =? 13)%Z then Some (String backslash "r")
  else if (cp <? 32)%Z || (cp =? 127)%Z then Some (String backslash ("x" ++ hex_of 1 cp))
  else if (cp <? 127)%Z then None
  else if isprintable cp then None
  else if (cp <=? 0xFF)%Z then Some (String backslash ("x" ++ hex_of 1 cp))
  else if (cp <=? 0xFFFF)%Z then Some (String backslash ("u" ++ hex_of 2 cp))
  else Some (String backslash ("U" ++ hex_of 4 cp)).

(** The characters of a text as [repr] writes them between the quotes.
    [skip] counts the bytes still to pass of a character that was written
    as an escape. A character that is kept is copied byte by byte: its
    later bytes begin no character and are copied in their turn. So are the
    bytes of a text that is not the UTF-8 form of a [str]. *)
Fixpoint repr_chars (quote : ascii) (skip : nat) (s : string) : string :=
  match s with
  | EmptyString => ""
  | String c rest =>
      match skip with
      | S skip' => repr_chars quote skip' rest
      | O =>
          match utf8_head s with
          | Some (cp, n) =>
              match escape quote cp with
              | Some e => e ++ repr_chars quote (n - 1) rest
              | None => String c (repr_chars quote 0 rest)
              end
          | None => String c (repr_chars quote 0 rest)
          end
      end
  end.

(** [repr(s)] for a [str]: single quotes, unless the text holds a single
    quote and no double quote. *)
Definition repr_str (s : string) : string :=
  let quote := if contains squote s && negb (contains dquote s)
               then dquote else squote in
  String quote (repr_chars quote 0 s ++ String quote "").

Definition two_digits (n : Z) : string :=
  if (n <? 10)%Z then "0" ++ str_int n else str_int n.

(** [datetime.strftime('%H:%M:%S')] of the UTC time [t], in seconds
    since the epoch. *)
Definition strftime_HMS (t : Z) : string :=
  two_digits ((t / 3600) mod 24) ++ ":" ++
  two_digits ((t / 60) mod 60) ++ ":" ++
  two_digits (t mod 60).

End PyText.

Import PyText.

(** ** The data classes *)

(** [amount] is annotated [float]; the interface hands over the text of an
    input field, and an [int] is accepted as well. *)
Inductive amount_value : Type :=
| AmountText (s : string)
| AmountInt (n : Z).

(** The data class [Record]. *)
Record Record_ : Type := mkRecord {
  sender : string;
  receiver : string;
  amount : amount_value
}.

(** The [record] attribute of a block: a [Record], or the text that the
    genesis block carries in its place. *)
Inductive record_value : Type :=
| Placeholder (s : string)
| Transaction (r : Record_).

Record Block : Type := mkBlock {
  record : record_value;
  creator_id : Z;
  prev_hash : string;
  timestamp : string;
  nonce : Z
}.

Definition set_nonce (b : Block) (n : Z) : Block :=
  mkBlock (record b) (creator_id b) (prev_hash b) (timestamp b) n.

(** The class object [Block]. The defaults of prev_hash and nonce are the
    literals '0' and 0; the default of [timestamp] is the value that
    [datetime.datetime.utcnow().strftime('%H:%M:%S')] had when the [class]
    statement ran, at time [utcnow]. *)
Record Block_class : Type := mkBlockClass {
  default_timestamp : string
}.

Definition define_Block (utcnow : Z) : Block_class :=
  mkBlockClass (strftime_HMS utcnow).

(** [Block(record, creator_id, prev_hash=..., timestamp=..., nonce=...)]:
    the generated [__init__] takes the defaults from the class. *)
Definition Block_init (cls : Block_class) (record : record_value) (creator_id : Z)
    (prev_hash timestamp : option string) (nonce : option Z) : Block :=
  mkBlock record creator_id
          (default "0"%string prev_hash)
          (default (default_timestamp cls) timestamp)
          (default 0 nonce).

Definition str_amount (a : amount_value) : string :=
  match a with
  | AmountText s => repr_str s
  | AmountInt n => str_int n
  end.

(** [str(self.record)]: the generated [__repr__] of the data class, or the
    text itself. *)
Definition str_record (r : record_value) : string :=
  match r with
  | Placeholder s => s
  | Transaction r =>
      ("Record(sender=" ++ repr_str (sender r) ++
       ", receiver=" ++ repr_str (receiver r) ++
       ", amount=" ++ str_amount (amount r) ++ ")")%string
  end.

(** A [hashlib] object accumulates the data it is fed. *)
Definition sha_new : string := EmptyString.
Definition sha_update (sha data : string) : string := (sha ++ data)%string.

(** The bytes fed to the hash object by [hash_block], in order. *)
Definition hash_input (self : Block) : string :=
  let sha := sha_new in
  let sha := sha_update sha (str_record (record self)) in
  let sha := sha_update sha (str_int (creator_id self)) in
  let sha := sha_update sha (timestamp self) in
  let sha := sha_update sha (prev_hash self) in
  let sha := sha_update sha (str_int (nonce self)) in
  sha.

Definition hash_block (self : Block) : string :=
  Sha256.hexdigest (hash_input self).

Arguments hash_block : simpl never.
Arguments startswith : simpl never.
Arguments str_mul : simpl never.

(** ** Objects *)

(** Blocks are mutable objects: the chain and the callers hold references
    to them. *)
Definition loc : Type := nat.

Record PyChain : Type := mkPyChain {
  chain : list loc;
  difficulty : Z
}.

(** The program state: the block objects and the one [PyChain] object. *)
Record state : Type := mkState {
  objects : gmap loc Block;
  pychain : PyChain
}.

Definition deref (σ : gmap loc Block) (l : loc) : outcome Block :=
  match σ !! l with
  | Some b => Returns b
  | None => Stuck
  end.

(** A newly constructed object sits at an address not in use. *)
Definition new (b : Block) (σ : gmap loc Block) : loc * gmap loc Block :=
  let l := fresh (dom σ) in (l, <[l := b]> σ).

(** ** The operations of [PyChain] *)

(** The [while] loop of [proof_of_work]; [fuel] bounds the number of
    iterations. *)
Fixpoint proof_of_work_while (fuel : nat) (num_of_zeros : string) (block : loc)
    (calculated_hash : string) (σ : gmap loc Block)
  : outcome (string * gmap loc Block) :=
  if startswith calculated_hash num_of_zeros then Returns (calculated_hash, σ)
  else
    match fuel with
    | O => OutOfFuel
    | S fuel' =>
        b ← deref σ block;
        let b' := set_nonce b (nonce b + 1) in
        proof_of_work_while fuel' num_of_zeros block (hash_block b')
                            (<[block := b']> σ)
    end.

Definition proof_of_work (fuel : nat) (block : loc) (s : state)
  : outcome (loc * state) :=
  b ← deref (objects s) block;
  let calculated_hash := hash_block b in
  num_of_zeros ← str_mul "0" (difficulty (pychain s));
  r ← proof_of_work_while fuel num_of_zeros block calculated_hash (objects s);
  Returns (block, mkState (snd r) (pychain s)).

Definition add_block (fuel : nat) (candidate_block : loc) (s : state)
  : outcome state :=
  r ← proof_of_work fuel candidate_block s;
  let block := fst r in
  let s' := snd r in
  Returns (mkState (objects s')
                   (mkPyChain (chain (pychain s') ++ [block])
                              (difficulty (pychain s')))).

(** The [for] loop of [is_valid] over [self.chain[1:]]. *)
Fixpoint is_valid_for (σ : gmap loc Block) (block_hash : string)
    (rest : list loc) : outcome bool :=
  match rest with
  | [] => Returns true
  | block :: rest' =>
      b ← deref σ block;
      if negb (String.eqb block_hash (prev_hash b)) then Returns false
      else is_valid_for σ (hash_block b) rest'
  end.

Definition is_valid (s : state) : outcome bool :=
  match chain (pychain s) with
  | [] => Raises IndexError
  | first :: rest =>
      b ← deref (objects s) first;
      is_valid_for (objects s) (hash_block b) rest
  end.

(** [pychain.difficulty = difficulty]. *)
Definition set_difficulty (d : Z) (s : state) : state :=
  mkState (objects s) (mkPyChain (chain (pychain s)) d).

(** ** The interface code that drives the chain *)

(** [setup()]: [PyChain([Block('Genesis', 0)])], with the default
    difficulty 4. *)
Definition genesis (cls : Block_class) : Block :=
  Block_init cls (Placeholder "Genesis") 0 None None None.

Definition setup (cls : Block_class) : state :=
  let r := new (genesis cls) ∅ in
  mkState (snd r) (mkPyChain [fst r] 4).

Definition seed : Z := 42.

(** The body of [if st.button('Add Block')]. *)
Definition add_block_handler (fuel : nat) (cls : Block_class)
    (sender_data receiver_data amount_data : string) (s : state)
  : outcome state :=
  prev_block ← match last (chain (pychain s)) with
               | Some l => Returns l
               | None => Raises IndexError
               end;
  pb ← deref (objects s) prev_block;
  let prev_block_hash := hash_block pb in
  let r := new (Block_init cls
                  (Transaction (mkRecord sender_data receiver_data
                                         (AmountText amount_data)))
                  seed (Some prev_block_hash) None None)
               (objects s) in
  add_block fuel (fst r) (mkState (snd r) (pychain s)).

(** ** The vocabulary of the statements *)

(** The text of [d] zero characters, empty when [d] is zero or negative. *)
Definition zeros (d : Z) : string := str_repeat "0" (Z.to_nat d).

(** The block object at position [i] of the chain list [c]. *)
Definition block_at (σ : gmap loc Block) (c : list loc) (i : nat) : option Block :=
  l ← c !! i; σ !! l.

(** The block at position [i + 1] stores as its prev_hash the digest that
    the block at position [i] has now. *)
Definition linked (σ : gmap loc Block) (c : list loc) (i : nat) : Prop :=
  ∀ b b', block_at σ c i = Some b → block_at σ c (S i) = Some b' →
          prev_hash b' = hash_block b.

Definition allocated (σ : gmap loc Block) (l : loc) : bool :=
  match σ !! l with
  | Some _ => true
  | None => false
  end.

(** The chain list is not empty and each of its entries refers to a block
    object. *)
Definition well_formed (s : state) : bool :=
  match chain (pychain s) with
  | [] => false
  | c => forallb (allocated (objects s)) c
  end.

(** Every entry of the chain list refers to a block object. *)
Definition closed (s : state) : Prop :=
  ∀ l, l ∈ chain (pychain s) → is_Some (objects s !! l).

(** A run of calls of [add_block], each with its fuel and its candidate. *)
Fixpoint add_blocks (calls : list (nat * loc)) (s : state) : outcome state :=
  match calls with
  | [] => Returns s
  | call :: calls' =>
      s' ← add_block (fst call) (snd call) s;
      add_blocks calls' s'
  end.

(** The states that the interface builds: [setup()], then slider moves and
    Add Block actions. Each action constructs a block that stores the
    digest of the present tail and hands it to [add_block]. *)
Inductive mined : state → Prop :=
| mined_setup (cls : Block_class) :
    mined (setup cls)
| mined_difficulty (s : state) (d : Z) :
    mined s → mined (set_difficulty d s)
| mined_add (s : state) (tail : loc) (tb : Block)
    (rec : record_value) (cid : Z) (ts : string) (n0 : Z) (fuel : nat) (s' : state) :
    mined s →
    last (chain (pychain s)) = Some tail →
    objects s !! tail = Some tb →
    add_block fuel
      (fst (new (mkBlock rec cid (hash_block tb) ts n0) (objects s)))
      (mkState (snd (new (mkBlock rec cid (hash_block tb) ts n0) (objects s)))
               (pychain s))
    = Returns s' →
    mined s'.

(** What the rest of the program can do with the chain between two
    renderings: construct a block, hand a block object to [add_block], move
    the difficulty, ask for validation. *)
Inductive action : Type :=
| Construct (b : Block)
| AddBlock (fuel : nat) (candidate_block : loc)
| SetDifficulty (d : Z)
| IsValid.

Inductive step : state → action → state → Prop :=
| step_construct (s : state) (b : Block) :
    step s (Construct b) (mkState (snd (new b (objects s))) (pychain s))
| step_add_block (s : state) (fuel : nat) (l : loc) (s' : state) :
    add_block fuel l s = Returns s' → step s (AddBlock fuel l) s'
| step_set_difficulty (s : state) (d : Z) :
    step s (SetDifficulty d) (set_difficulty d s)
| step_is_valid (s : state) (o : outcome bool) :
    is_valid s = o → step s IsValid s.

(** A sequence of actions, each allowed in the state where it is taken. *)
Inductive steps (allowed : state → action → Prop) : state → state → Prop :=
| steps_refl (s : state) : steps allowed s s
| steps_step (s s' : state) (a : action) (s'' : state) :
    steps allowed s s' → allowed s' a → step s' a s'' → steps allowed s s''.

Definition any_call : state → action → Prop := fun _ _ => True.

(** The action hands to [add_block] a block object that is in the chain
    already. *)
Definition resubmits (s : state) (a : action) : Prop :=
  match a with
  | AddBlock _ l => l ∈ chain (pychain s)
  | _ => False
  end.

Definition fresh_candidates : state → action → Prop :=
  fun s a => ¬ resubmits s a.

Definition same_but_nonce (b b' : Block) : Prop :=
  record b' = record b ∧ creator_id b' = creator_id b ∧
  prev_hash b' = prev_hash b ∧ timestamp b' = timestamp b.

(** The chain list only gets longer at its end, and the block objects stay,
    with at most their nonce moved. *)
Definition grows (s s' : state) : Prop :=
  chain (pychain s) `prefix_of` chain (pychain s') ∧
  ∀ l b, objects s !! l = Some b →
         ∃ b', objects s' !! l = Some b' ∧ same_but_nonce b b'.

(** The blocks of the chain are untouched. *)
Definition keeps (s s' : state) : Prop :=
  ∀ l b, l ∈ chain (pychain s) → objects s !! l = Some b →
         objects s' !! l = Some b.

(** ** Sample states, to which the theorems are applied below *)

(** The class statement ran at 08:30:05 UTC. *)
Definition sample_class : Block_class := define_Block 1699000205.

(** The chain after [setup()], with the slider at difficulty 1. *)
Definition sample_genesis_state : state := set_difficulty 1 (setup sample_class).

(** The block that the Add Block handler builds for the entries a, b, 10. *)
Definition sample_candidate : Block :=
  Block_init sample_class
    (Transaction (mkRecord "a" "b" (AmountText "10"))) seed
    (Some (hash_block (genesis sample_class))) None None.

(** The candidate constructed but not yet handed to [add_block]. *)
Definition sample_pending_state : state :=
  mkState (snd (new sample_candidate (objects sample_genesis_state)))
          (pychain sample_genesis_state).

(** The same objects once the candidate is mined at difficulty 1: its nonce
    is 3. *)
Definition sample_mined_state : state :=
  mkState (<[1%nat := set_nonce sample_candidate 3]> (objects sample_pending_state))
          (pychain sample_pending_state).

(** The chain once [add_block] has appended the mined candidate. *)
Definition sample_chain_state : state :=
  mkState (objects sample_mined_state) (mkPyChain [0%nat; 1%nat] 1).

(** The same chain after the record of the genesis block was overwritten. *)
Definition sample_tampered_genesis : Block :=
  mkBlock (Placeholder "Genesic") 0 "0" "08:30:05" 0.

Definition sample_tampered_state : state :=
  mkState (<[0%nat := sample_tampered_genesis]> (objects sample_chain_state))
          (pychain sample_chain_state).

(** A block built with the default prev_hash, constructed after [setup()]
    with the difficulty at 0, and the chain once it is appended. *)
Definition sample_unlinked_candidate : Block :=
  Block_init sample_class
    (Transaction (mkRecord "a" "b" (AmountText "10"))) seed None None None.

Definition sample_unlinked_pending : state :=
  mkState (snd (new sample_unlinked_candidate (objects sample_genesis_state)))
          (mkPyChain [0%nat] 0).

Definition sample_unlinked_chain : state :=
  mkState (objects sample_unlinked_pending) (mkPyChain [0%nat; 1%nat] 0).

(** ** One run of the script *)

(** What the widgets hand to a run of the script: the three text inputs,
    whether the Add Block button and the Validate Chain button were pressed,
    and the position of the difficulty slider. *)
Record widgets : Type := mkWidgets {
  sender_input : string;
  receiver_input : string;
  amount_input : string;
  add_block_button : bool;
  difficulty_slider : Z;
  validate_button : bool
}.

(** [st.sidebar.slider('Block Difficulty', 1, 7, 2)] hands back a value
    from 1 to 7. *)
Definition slider_in_range (w : widgets) : Prop :=
  (1 ≤ difficulty_slider w ≤ 7)%Z.

(** The script from top to bottom, run at time [utcnow]: the class
    statements; [pychain = setup()], which [st.cache] answers with the
    object of its first call when there is one; the Add Block handler when
    its button was pressed; the assignment of the slider value to
    [pychain.difficulty]; and [is_valid] when the Validate Chain button was
    pressed, whose answer picks the banner (success for [True], warning for
    [False]). The tables and the block inspector only display. *)
Definition script_run (fuel : nat) (utcnow : Z) (w : widgets) (cache : option state)
  : outcome (state * option bool) :=
  let cls := define_Block utcnow in
  let s0 := match cache with
            | Some s => s
            | None => setup cls
            end in
  s1 ← (if add_block_button w
        then add_block_handler fuel cls (sender_input w) (receiver_input w)
                               (amount_input w) s0
        else Returns s0);
  let s2 := set_difficulty (difficulty_slider w) s1 in
  banner ← (if validate_button w
            then v ← is_valid s2; Returns (Some v)
            else Returns None);
  Returns (s2, banner).

(** The states in which a run of the script leaves the chain, run after
    run. *)
Inductive app_state : state → Prop :=
| app_first (fuel : nat) (utcnow : Z) (w : widgets) (s : state) (banner : option bool) :
    slider_in_range w →
    script_run fuel utcnow w None = Returns (s, banner) →
    app_state s
| app_next (s : state) (fuel : nat) (utcnow : Z) (w : widgets)
    (s' : state) (banner : option bool) :
    app_state s →
    slider_in_range w →
    script_run fuel utcnow w (Some s) = Returns (s', banner) →
    app_state s'.

(** The state a run starts from. *)
Definition run_start (utcnow : Z) (cache : option state) : state :=
  match cache with
  | Some s => s
  | None => setup (define_Block utcnow)
  end.

(** The widgets of sample runs: nothing pressed; Add Block pressed with the
    entries a, b, 10; Validate Chain pressed. The slider stays at 1. *)
Definition sample_idle : widgets := mkWidgets "" "" "" false 1 false.
Definition sample_add : widgets := mkWidgets "a" "b" "10" true 1 false.
Definition sample_validate : widgets := mkWidgets "a" "b" "10" false 1 true.

(** The shape of the genesis block of the interface: the placeholder text,
    creator_id 0, prev_hash '0', a clock string, and the nonce 0 with which
    it was constructed. *)
Definition genesis_shape (b : Block) : Prop :=
  record b = Placeholder "Genesis" ∧ creator_id b = 0%Z ∧
  prev_hash b = "0"%string ∧ String.length (timestamp b) = 8%nat ∧
  nonce b = 0%Z.

(** The shape of a block appended by the interface: a [Record] of three
    texts, creator_id 42, a clock string, a digest as prev_hash, and a
    digest of its own that starts with a zero. *)
Definition interface_block (b : Block) : Prop :=
  (∃ sender_data receiver_data amount_data,
     record b = Transaction (mkRecord sender_data receiver_data
                                      (AmountText amount_data))) ∧
  creator_id b = 42%Z ∧
  String.length (timestamp b) = 8%nat ∧
  String.length (prev_hash b) = 64%nat ∧
  startswith (hash_block b) "0" = true.

(** The shape of a chain of the interface. *)
Definition app_chain (s : state) : Prop :=
  closed s ∧
  (1 ≤ difficulty (pychain s) ≤ 7)%Z ∧
  (∃ g bg, chain (pychain s) !! 0%nat = Some g ∧ objects s !! g = Some bg ∧
           genesis_shape bg) ∧
  ∀ i l b, chain (pychain s) !! S i = Some l → objects s !! l = Some b →
           interface_block b.

(** ** Reading a [repr] back *)

(** The character with the given byte value. *)
Definition char_of (n : Z) : ascii := ascii_of_N (Z.to_N n).

(** The UTF-8 form of a code point, as [str.encode] writes it. *)
Definition utf8_encode (cp : Z) : string :=
  if cp <? 0x80 then String (char_of cp) EmptyString
  else if cp <? 0x800 then
    String (char_of (0xC0 + cp / 64)) (String (char_of (0x80 + cp mod 64)) EmptyString)
  else if cp <? 0x10000 then
    String (char_of (0xE0 + cp / 4096))
      (String (char_of (0x80 + (cp / 64) mod 64))
         (String (char_of (0x80 + cp mod 64)) EmptyString))
  else
    String (char_of (0xF0 + cp / 262144))
      (String (char_of (0x80 + (cp / 4096) mod 64))
         (String (char_of (0x80 + (cp / 64) mod 64))
            (String (char_of (0x80 + cp mod 64)) EmptyString))).

(** The form of an escape: a backslash, a letter that tells its kind, and
    the digits that the kind takes. *)
Inductive escape_form (q : ascii) (cp : Z) (k : ascii) (body : string) : Prop :=
| form_quote : k = q → body = "" → cp = byte_of q → escape_form q cp k body
| form_backslash : k = backslash → body = "" → cp = byte_of backslash →
                   escape_form q cp k body
| form_t : k = "t"%char → body = "" → cp = 9%Z → escape_form q cp k body
| form_n : k = "n"%char → body = "" → cp = 10%Z → escape_form q cp k body
| form_r : k = "r"%char → body = "" → cp = 13%Z → escape_form q cp k body
| form_x : k = "x"%char → body = hex_of 1 cp → (cp ≤ 0xFF)%Z → escape_form q cp k body
| form_u : k = "u"%char → body = hex_of 2 cp → (0xFF < cp ≤ 0xFFFF)%Z →
           escape_form q cp k body
| form_U : k = "U"%char → body = hex_of 4 cp → (0xFFFF < cp)%Z →
           escape_form q cp k body.

(** * Properties *)

(** ** The model computes what Python computes *)

Example sha256_abc :
  Sha256.hexdigest "abc"
  = "ba7816bf8f01cfea414140de5dae2223b00361a396177a9cb410ff61f20015ad"%string.
Proof. vm_compute. reflexivity. Qed.

Example sha256_empty :
  Sha256.hexdigest ""
  = "e3b0c44298fc1c149afbf4c8996fb92427ae41e4649b934ca495991b7852b855"%string.
Proof. vm_compute. reflexivity. Qed.

Example sha256_two_blocks :
  Sha256.hexdigest "abcdbcdecdefdefgefghfghighijhijkijkljklmklmnlmnomnopnopq"
  = "248d6a61d20638b8e5c026930c3e6039a33ce45964ff2167f6ecedd419db06c1"%string.
Proof. vm_compute. reflexivity. Qed.

Example sha256_block_boundaries :
  Sha256.hexdigest (str_repeat "a" 55)
  = "9f4390f8d30c2dd92ec9f095b65e2b9ae9b0a925a5258e241c9f1e910f734318"%string
  ∧ Sha256.hexdigest (str_repeat "a" 64)
  = "ffe054fe7ae0cb6dc65c3af9b61d5209f439851db43d0ba5997337df154668eb"%string.
Proof. vm_compute. split; reflexivity. Qed.

(** The digest of the genesis block of a class defined at 08:30:05: the
    bytes hashed are Genesis008:30:0500. *)
Example hash_block_genesis :
  hash_input (genesis (define_Block 1699000205)) = "Genesis008:30:0500"%string
  ∧ hash_block (genesis (define_Block 1699000205))
  = "0cc4a207f21b32a3bbd8ef73deb414f34cbc07832ac3e7f855bf6975351983e8"%string.
Proof. vm_compute. split; reflexivity. Qed.

Example repr_str_forms :
  repr_str (String "t" (String "009" "x")) = String squote (String "t" (String backslash "tx'"))
  ∧ repr_str (String "q" (String dquote "u")) = String squote (String "q" (String dquote "u'"))
  ∧ repr_str (String squote (String dquote EmptyString))
    = String squote (String backslash (String squote (String dquote (String squote EmptyString)))).
Proof. vm_compute. repeat split; reflexivity. Qed.

(** Outside ASCII: the no-break space, the zero-width joiner, the
    ideographic space, a private-use character and the last code point are
    written as escapes; an accented letter and an emoji are kept. *)
Example repr_str_outside_ascii :
  repr_str (text [49; 194; 160; 48; 48; 48])
  = text [39; 49; 92; 120; 97; 48; 48; 48; 48; 39]
  ∧ repr_str (text [226; 128; 141]) = text [39; 92; 117; 50; 48; 48; 100; 39]
  ∧ repr_str (text [227; 128; 128]) = text [39; 92; 117; 51; 48; 48; 48; 39]
  ∧ repr_str (text [238; 128; 128]) = text [39; 92; 117; 101; 48; 48; 48; 39]
  ∧ repr_str (text [244; 143; 191; 191])
    = text [39; 92; 85; 48; 48; 49; 48; 102; 102; 102; 102; 39]
  ∧ repr_str (text [194; 133]) = text [39; 92; 120; 56; 53; 39]
  ∧ repr_str (text [195; 169]) = text [39; 195; 169; 39]
  ∧ repr_str (text [240; 159; 152; 128]) = text [39; 240; 159; 152; 128; 39]
  ∧ repr_str (text [0; 31; 127; 9; 10; 13; 92])
    = text [39; 92; 120; 48; 48; 92; 120; 49; 102; 92; 120; 55; 102; 92; 116;
            92; 110; 92; 114; 92; 92; 39].
Proof. vm_compute. repeat split; reflexivity. Qed.

Example str_record_form :
  str_record (Transaction (mkRecord "Al" "it's" (AmountText "10")))
  = String.append "Record(sender='Al', receiver="
      (String.append (String dquote (String.append "it's" (String dquote EmptyString)))
                     ", amount='10')").
Proof. vm_compute. reflexivity. Qed.

Example strftime_form : strftime_HMS 1699000205 = "08:30:05"%string.
Proof. vm_compute. reflexivity. Qed.

(** The UTF-8 forms of an accented letter, the ideographic space and an
    emoji, and the characters read at the head of these forms. *)
Example utf8_forms :
  utf8_encode 0xE9 = text [195; 169]
  ∧ utf8_encode 0x3000 = text [227; 128; 128]
  ∧ utf8_encode 0x1F600 = text [240; 159; 152; 128]
  ∧ utf8_head (text [195; 169; 97]) = Some (0xE9, 2%nat)
  ∧ utf8_head (text [227; 128; 128]) = Some (0x3000, 3%nat)
  ∧ utf8_head (text [240; 159; 152; 128]) = Some (0x1F600, 4%nat)
  ∧ utf8_head (text [237; 160; 128]) = None
  ∧ utf8_head (text [192; 128]) = None.
Proof. vm_compute. repeat split; reflexivity. Qed.

(** The product of a text and a count, at the ends of [Py_ssize_t]. *)
Example str_mul_forms :
  str_mul "ab" 3 = Returns "ababab"%string
  ∧ str_mul "0" 0 = Returns EmptyString
  ∧ str_mul "0" (-5) = Returns EmptyString
  ∧ str_mul "0" (-9223372036854775808) = Returns EmptyString
  ∧ str_mul "0" (-9223372036854775809) = Raises OverflowError
  ∧ str_mul "0" 9223372036854775808 = Raises OverflowError.
Proof. vm_compute. repeat split; reflexivity. Qed.

(** ** Digests and prefixes of zeros *)

Section Digests.

Local Open Scope string_scope.

Lemma zeros_S (n : nat) : str_repeat "0" (S n) = String "0" (str_repeat "0" n).
Proof. reflexivity. Qed.

Lemma length_zeros (n : nat) : String.length (str_repeat "0" n) = n.
Proof.
  induction n as [|n IH]; [reflexivity|].
  rewrite zeros_S. cbn [String.length]. rewrite IH. reflexivity.
Qed.

Lemma prefix_length (p s : string) :
  String.prefix p s = true → (String.length p ≤ String.length s)%nat.
Proof.
  revert p. induction s as [|c s IH]; intros [|a p] H; cbn [String.length];
    try lia; cbn [String.prefix] in H; [discriminate|].
  destruct (ascii_dec a c); [|discriminate].
  specialize (IH p H). lia.
Qed.

(** A text that starts with [n + k] zeros starts with [n] zeros. *)
Lemma startswith_fewer_zeros (n k : nat) :
  ∀ h, startswith h (str_repeat "0" (n + k)) = true →
       startswith h (str_repeat "0" n) = true.
Proof.
  unfold startswith.
  induction n as [|n IH]; intros h H; [destruct h; reflexivity|].
  change (S n + k)%nat with (S (n + k)) in H. rewrite zeros_S in H |- *.
  destruct h as [|c h]; cbn [String.prefix] in H |- *; [discriminate|].
  destruct (ascii_dec "0" c); [|discriminate]. exact (IH h H).
Qed.

Lemma startswith_lower_difficulty (h : string) (d d' : Z) :
  (d' ≤ d)%Z →
  startswith h (zeros d) = true → startswith h (zeros d') = true.
Proof.
  unfold zeros. intros Hd H.
  apply (startswith_fewer_zeros (Z.to_nat d') (Z.to_nat d - Z.to_nat d')).
  replace (Z.to_nat d' + (Z.to_nat d - Z.to_nat d'))%nat with (Z.to_nat d) by lia.
  exact H.
Qed.

Lemma length_compress (h block : list Z) :
  length h = 8%nat → length (Sha256.compress h block) = 8%nat.
Proof.
  intros Hh. unfold Sha256.compress, Sha256.list_of.
  rewrite length_map, length_combine, Hh. reflexivity.
Qed.

Lemma length_blocks (fuel : nat) :
  ∀ h ws, length h = 8%nat → length (Sha256.blocks fuel h ws) = 8%nat.
Proof.
  induction fuel as [|fuel IH]; intros h ws Hh; cbn [Sha256.blocks]; [exact Hh|].
  destruct ws; [exact Hh|]. apply IH. apply length_compress. exact Hh.
Qed.

Lemma length_be_bytes (n : nat) (x : Z) : length (Sha256.be_bytes n x) = n.
Proof.
  induction n as [|n IH]; [reflexivity|].
  cbn [Sha256.be_bytes length]. rewrite IH. reflexivity.
Qed.

Lemma length_digest (msg : list Z) : length (Sha256.digest msg) = 32%nat.
Proof.
  unfold Sha256.digest.
  rewrite (flat_map_constant_length (c := 4)).
  - rewrite length_blocks; reflexivity.
  - intros x _. apply length_be_bytes.
Qed.

Lemma length_hex (bs : list Z) : String.length (Sha256.hex bs) = (2 * length bs)%nat.
Proof.
  induction bs as [|b bs IH]; [reflexivity|].
  cbn [Sha256.hex String.length length]. rewrite IH. lia.
Qed.

Lemma length_hexdigest (data : string) : String.length (Sha256.hexdigest data) = 64%nat.
Proof. unfold Sha256.hexdigest. rewrite length_hex, length_digest. reflexivity. Qed.

Lemma length_hash_block (b : Block) : String.length (hash_block b) = 64%nat.
Proof. apply length_hexdigest. Qed.

(** No digest starts with more than 64 zeros. *)
Lemma startswith_too_many_zeros (b : Block) (d : Z) :
  (64 < d)%Z → startswith (hash_block b) (zeros d) = false.
Proof.
  intros Hd. destruct (startswith (hash_block b) (zeros d)) eqn:H; [|reflexivity].
  apply prefix_length in H. unfold zeros in H.
  rewrite length_zeros, length_hash_block in H. lia.
Qed.

Lemma startswith_zeros_le_64 (b : Block) (d : Z) :
  startswith (hash_block b) (zeros d) = true → (d ≤ 64)%Z.
Proof.
  intros H. destruct (Z_le_gt_dec d 64) as [Hd|Hd]; [exact Hd|].
  rewrite startswith_too_many_zeros in H by lia. discriminate H.
Qed.

End Digests.

(** ** Proof of work *)

Section ProofOfWork.

Local Open Scope string_scope.

Lemma set_nonce_nonce (b : Block) : set_nonce b (nonce b) = b.
Proof. destruct b; reflexivity. Qed.

Lemma startswith_empty (s : string) : startswith s "" = true.
Proof. unfold startswith. destruct s; reflexivity. Qed.

Lemma state_eta (s : state) : mkState (objects s) (pychain s) = s.
Proof. destruct s; reflexivity. Qed.

(** The least index at which a boolean test succeeds. *)
Lemma least_true (P : nat → bool) (n : nat) :
  P n = true →
  ∃ k, (k ≤ n)%nat ∧ P k = true ∧ ∀ i, (i < k)%nat → P i = false.
Proof.
  revert P. induction n as [|n IH]; intros P Hn.
  - exists O. split; [lia|]. split; [exact Hn|]. intros i Hi. lia.
  - destruct (P O) eqn:H0.
    + exists O. split; [lia|]. split; [exact H0|]. intros i Hi. lia.
    + destruct (IH (fun i => P (S i)) Hn) as (k & Hk & Hwin & Hlow).
      exists (S k). split; [lia|]. split; [exact Hwin|].
      intros [|i] Hi; [exact H0|]. apply Hlow. lia.
Qed.

Variable num_of_zeros : string.
Variable block : loc.

(** One unfolding of the loop. *)
Lemma proof_of_work_while_eq (fuel : nat) (h : string) (σ : gmap loc Block) :
  proof_of_work_while fuel num_of_zeros block h σ
  = if startswith h num_of_zeros then Returns (h, σ)
    else match fuel with
         | O => OutOfFuel
         | S fuel' =>
             match σ !! block with
             | Some b =>
                 proof_of_work_while fuel' num_of_zeros block
                   (hash_block (set_nonce b (nonce b + 1)))
                   (<[block := set_nonce b (nonce b + 1)]> σ)
             | None => Stuck
             end
         end.
Proof.
  destruct fuel; [reflexivity|].
  unfold proof_of_work_while at 1; fold proof_of_work_while.
  unfold deref. destruct (σ !! block); reflexivity.
Qed.

Lemma nonce_shift (b : Block) (i : nat) :
  set_nonce (set_nonce b (nonce b + 1)) (nonce (set_nonce b (nonce b + 1)) + Z.of_nat i)
  = set_nonce b (nonce b + Z.of_nat (S i)).
Proof.
  unfold set_nonce; cbn [record creator_id prev_hash timestamp nonce].
  f_equal. lia.
Qed.

Lemma nonce_zero (b : Block) : set_nonce b (nonce b + Z.of_nat 0) = b.
Proof.
  change (Z.of_nat 0) with 0%Z. rewrite Z.add_0_r. apply set_nonce_nonce.
Qed.

(** Among the nonces from that of [b] up to a winning [n], the first that
    wins. *)
Lemma least_winning_nonce (b : Block) (n : Z) :
  (nonce b ≤ n)%Z →
  startswith (hash_block (set_nonce b n)) num_of_zeros = true →
  ∃ k : nat,
    (nonce b + Z.of_nat k ≤ n)%Z ∧
    startswith (hash_block (set_nonce b (nonce b + Z.of_nat k))) num_of_zeros = true ∧
    ∀ i, (i < k)%nat →
         startswith (hash_block (set_nonce b (nonce b + Z.of_nat i))) num_of_zeros = false.
Proof.
  intros Hn Hwin.
  set (P := fun i : nat =>
              startswith (hash_block (set_nonce b (nonce b + Z.of_nat i))) num_of_zeros).
  assert (HP : P (Z.to_nat (n - nonce b)) = true).
  { unfold P. replace (nonce b + Z.of_nat (Z.to_nat (n - nonce b)))%Z with n by lia.
    exact Hwin. }
  destruct (least_true P _ HP) as (k & Hk & Hwink & Hlow).
  exists k. split; [lia|]. split; [exact Hwink|exact Hlow].
Qed.

(** [k] failed attempts followed by a success: the loop stops after
    exactly [k] increments. *)
Lemma proof_of_work_while_stops (k : nat) :
  ∀ (fuel : nat) (b : Block) (σ : gmap loc Block),
    σ !! block = Some b →
    (k ≤ fuel)%nat →
    (∀ i, (i < k)%nat →
       startswith (hash_block (set_nonce b (nonce b + Z.of_nat i))) num_of_zeros = false) →
    startswith (hash_block (set_nonce b (nonce b + Z.of_nat k))) num_of_zeros = true →
    proof_of_work_while fuel num_of_zeros block (hash_block b) σ
    = Returns (hash_block (set_nonce b (nonce b + Z.of_nat k)),
               <[block := set_nonce b (nonce b + Z.of_nat k)]> σ).
Proof.
  induction k as [|k IH]; intros fuel b σ Hb Hfuel Hfail Hwin;
    rewrite proof_of_work_while_eq.
  - rewrite nonce_zero in *. rewrite Hwin, (insert_id σ block b Hb).
    reflexivity.
  - destruct fuel as [|fuel]; [lia|].
    pose proof (Hfail O ltac:(lia)) as H0. rewrite nonce_zero in H0.
    rewrite H0, Hb.
    rewrite (IH fuel (set_nonce b (nonce b + 1))
                (<[block := set_nonce b (nonce b + 1)]> σ)).
    + rewrite nonce_shift, insert_insert_eq. reflexivity.
    + apply lookup_insert_eq.
    + lia.
    + intros i Hi. rewrite nonce_shift. apply Hfail. lia.
    + rewrite nonce_shift. exact Hwin.
Qed.

(** While every attempt fails, the loop is still running. *)
Lemma proof_of_work_while_runs (fuel : nat) :
  ∀ (b : Block) (σ : gmap loc Block),
    σ !! block = Some b →
    (∀ i, (i ≤ fuel)%nat →
       startswith (hash_block (set_nonce b (nonce b + Z.of_nat i))) num_of_zeros = false) →
    proof_of_work_while fuel num_of_zeros block (hash_block b) σ = OutOfFuel.
Proof.
  induction fuel as [|fuel IH]; intros b σ Hb Hfail;
    pose proof (Hfail O ltac:(lia)) as H0; rewrite nonce_zero in H0;
    rewrite proof_of_work_while_eq, H0; [reflexivity|].
  rewrite Hb. apply IH; [apply lookup_insert_eq|].
  intros i Hi. rewrite nonce_shift. apply Hfail. lia.
Qed.

(** Whatever the loop returns, it has only moved the nonce of [block]
    upwards. *)
Lemma proof_of_work_while_frame (fuel : nat) :
  ∀ (b : Block) (σ : gmap loc Block) (h : string) r,
    σ !! block = Some b →
    proof_of_work_while fuel num_of_zeros block h σ = Returns r →
    ∃ m, (nonce b ≤ m)%Z ∧ snd r = <[block := set_nonce b m]> σ.
Proof.
  induction fuel as [|fuel IH]; intros b σ h r Hb Hr;
    rewrite proof_of_work_while_eq in Hr;
    destruct (startswith h num_of_zeros).
  1, 3: injection Hr as <-; exists (nonce b); split; [lia|];
        cbn [snd]; rewrite set_nonce_nonce; symmetry; apply insert_id; exact Hb.
  - discriminate.
  - rewrite Hb in Hr.
    apply (IH (set_nonce b (nonce b + 1))) in Hr; [|apply lookup_insert_eq].
    destruct Hr as (m & Hm & ->). cbn [set_nonce nonce] in Hm.
    exists m. split; [lia|]. rewrite insert_insert_eq. reflexivity.
Qed.

(** The loop raises nothing. *)
Lemma proof_of_work_while_no_failure (fuel : nat) :
  ∀ (b : Block) (σ : gmap loc Block) (h : string),
    σ !! block = Some b →
    (∃ r, proof_of_work_while fuel num_of_zeros block h σ = Returns r)
    ∨ proof_of_work_while fuel num_of_zeros block h σ = OutOfFuel.
Proof.
  induction fuel as [|fuel IH]; intros b σ h Hb;
    rewrite proof_of_work_while_eq;
    destruct (startswith h num_of_zeros); eauto.
  rewrite Hb.
  apply (IH (set_nonce b (nonce b + 1))). apply lookup_insert_eq.
Qed.

End ProofOfWork.

(** What the loop has done when it returns: [k] increments within the fuel,
    and the digest it holds is that of the block as it is left, which starts
    with the zeros. *)
Lemma proof_of_work_while_result (num_of_zeros : string) (block : loc) (fuel : nat) :
  ∀ (b : Block) (σ : gmap loc Block) r,
    σ !! block = Some b →
    proof_of_work_while fuel num_of_zeros block (hash_block b) σ = Returns r →
    ∃ k : nat,
      (k ≤ fuel)%nat ∧
      snd r = <[block := set_nonce b (nonce b + Z.of_nat k)]> σ ∧
      fst r = hash_block (set_nonce b (nonce b + Z.of_nat k)) ∧
      startswith (hash_block (set_nonce b (nonce b + Z.of_nat k))) num_of_zeros = true ∧
      ∀ i, (i < k)%nat →
           startswith (hash_block (set_nonce b (nonce b + Z.of_nat i))) num_of_zeros = false.
Proof.
  induction fuel as [|fuel IH]; intros b σ r Hb Hr;
    rewrite proof_of_work_while_eq in Hr;
    destruct (startswith (hash_block b) num_of_zeros) eqn:Hwin.
  1, 3: injection Hr as <-; exists O; rewrite nonce_zero; cbn [fst snd];
        split; [lia|]; split; [symmetry; apply insert_id; exact Hb|];
        split; [reflexivity|]; split; [exact Hwin|]; intros i Hi; lia.
  - discriminate.
  - rewrite Hb in Hr.
    apply (IH (set_nonce b (nonce b + 1))) in Hr; [|apply lookup_insert_eq].
    destruct Hr as (k & Hk & Hstore & Hhash & Hwins & Hlow).
    rewrite nonce_shift in Hstore, Hhash, Hwins. rewrite insert_insert_eq in Hstore.
    exists (S k). split; [lia|]. split; [exact Hstore|]. split; [exact Hhash|].
    split; [exact Hwins|].
    intros [|i] Hi; [rewrite nonce_zero; exact Hwin|].
    rewrite <- nonce_shift. apply Hlow. lia.
Qed.

(** ** The product ['0' * self.difficulty] *)

Lemma fits_ssize_t_spec (n : Z) :
  fits_ssize_t n = true ↔ (PY_SSIZE_T_MIN ≤ n ≤ PY_SSIZE_T_MAX)%Z.
Proof. unfold fits_ssize_t. rewrite andb_true_iff, !Z.leb_le. reflexivity. Qed.

Lemma str_mul_zeros (d : Z) :
  (PY_SSIZE_T_MIN ≤ d ≤ PY_SSIZE_T_MAX)%Z → str_mul "0" d = Returns (zeros d).
Proof.
  intros Hd. unfold str_mul. rewrite (proj2 (fits_ssize_t_spec d) Hd). reflexivity.
Qed.

Lemma str_mul_overflow (s : string) (n : Z) :
  (n < PY_SSIZE_T_MIN ∨ PY_SSIZE_T_MAX < n)%Z → str_mul s n = Raises OverflowError.
Proof.
  intros Hn. unfold str_mul. destruct (fits_ssize_t n) eqn:Hf; [|reflexivity].
  apply fits_ssize_t_spec in Hf. lia.
Qed.

Lemma PY_SSIZE_T_bounds : (PY_SSIZE_T_MIN < 0)%Z ∧ (64 < PY_SSIZE_T_MAX)%Z.
Proof. unfold PY_SSIZE_T_MIN, PY_SSIZE_T_MAX. lia. Qed.

(** [proof_of_work] on a block object, when the difficulty is a count that
    the interpreter accepts: what its loop does. *)
Lemma proof_of_work_fits (fuel : nat) (block : loc) (s : state) (b : Block) :
  objects s !! block = Some b →
  (PY_SSIZE_T_MIN ≤ difficulty (pychain s) ≤ PY_SSIZE_T_MAX)%Z →
  proof_of_work fuel block s
  = match proof_of_work_while fuel (zeros (difficulty (pychain s))) block
            (hash_block b) (objects s) with
    | Returns r => Returns (block, mkState (snd r) (pychain s))
    | Raises e => Raises e
    | OutOfFuel => OutOfFuel
    | Stuck => Stuck
    end.
Proof.
  intros Hb Hd. unfold proof_of_work, deref. rewrite Hb.
  cbn [mbind outcome_bind]. rewrite (str_mul_zeros _ Hd). reflexivity.
Qed.

(** When it is not, the product raises before the loop is entered. *)
Lemma proof_of_work_overflow (fuel : nat) (block : loc) (s : state) (b : Block) :
  objects s !! block = Some b →
  (difficulty (pychain s) < PY_SSIZE_T_MIN ∨ PY_SSIZE_T_MAX < difficulty (pychain s))%Z →
  proof_of_work fuel block s = Raises OverflowError.
Proof.
  intros Hb Hd. unfold proof_of_work, deref. rewrite Hb.
  cbn [mbind outcome_bind]. rewrite (str_mul_overflow _ _ Hd). reflexivity.
Qed.

(** A call of [proof_of_work] that returns was made on a block object, with
    a difficulty that fits, and its loop returned. *)
Lemma proof_of_work_inv (fuel : nat) (block : loc) (s : state) (r : loc * state) :
  proof_of_work fuel block s = Returns r →
  ∃ b res,
    objects s !! block = Some b ∧
    (PY_SSIZE_T_MIN ≤ difficulty (pychain s) ≤ PY_SSIZE_T_MAX)%Z ∧
    proof_of_work_while fuel (zeros (difficulty (pychain s))) block
      (hash_block b) (objects s) = Returns res ∧
    r = (block, mkState (snd res) (pychain s)).
Proof.
  intros H.
  destruct (objects s !! block) as [b|] eqn:Hb;
    [|unfold proof_of_work, deref in H; rewrite Hb in H; discriminate H].
  destruct (fits_ssize_t (difficulty (pychain s))) eqn:Hf.
  - apply fits_ssize_t_spec in Hf. rewrite (proof_of_work_fits _ _ _ _ Hb Hf) in H.
    destruct (proof_of_work_while fuel _ block (hash_block b) (objects s))
      as [res| | |] eqn:Hloop; try discriminate H.
    injection H as <-. exists b, res. auto.
  - rewrite (proof_of_work_overflow _ _ _ _ Hb) in H; [discriminate H|].
    destruct (Z_lt_le_dec (difficulty (pychain s)) PY_SSIZE_T_MIN) as [Hlo|Hlo];
      [left; exact Hlo|right].
    destruct (Z_lt_le_dec PY_SSIZE_T_MAX (difficulty (pychain s))) as [Hhi|Hhi];
      [exact Hhi|].
    rewrite (proj2 (fits_ssize_t_spec _) (conj Hlo Hhi)) in Hf. discriminate Hf.
Qed.

(** C1. When some nonce [n] at or above the block's initial nonce gives a
    digest that starts with [difficulty] zero characters, [proof_of_work]
    returns the same block object with its nonce set to the least such value
    [m]: the digest of the returned block starts with the zeros, no value
    from the initial nonce up to [m - 1] does, the call returns with any
    fuel of at least [m - nonce] iterations and is still looping with less,
    one increment per iteration. The difficulty is a count of characters:
    the premise bounds it by 64, and it is taken to be no less than the
    least [Py_ssize_t], zero and the negative values down to there
    included. *)
Theorem proof_of_work_least_nonce (s : state) (block : loc) (b : Block) (n : Z) :
  objects s !! block = Some b →
  (PY_SSIZE_T_MIN ≤ difficulty (pychain s))%Z →
  (nonce b ≤ n)%Z →
  startswith (hash_block (set_nonce b n))
             (zeros (difficulty (pychain s))) = true →
  ∃ m : Z,
    (nonce b ≤ m ≤ n)%Z ∧
    startswith (hash_block (set_nonce b m))
               (zeros (difficulty (pychain s))) = true ∧
    (∀ k, (nonce b ≤ k < m)%Z →
       startswith (hash_block (set_nonce b k))
                  (zeros (difficulty (pychain s))) = false) ∧
    (∀ fuel, (Z.to_nat (m - nonce b) ≤ fuel)%nat →
       proof_of_work fuel block s
       = Returns (block, mkState (<[block := set_nonce b m]> (objects s))
                                 (pychain s))) ∧
    (∀ fuel, (fuel < Z.to_nat (m - nonce b))%nat →
       proof_of_work fuel block s = OutOfFuel).
Proof.
  intros Hb Hmin Hn Hwin.
  assert (Hfits : (PY_SSIZE_T_MIN ≤ difficulty (pychain s) ≤ PY_SSIZE_T_MAX)%Z).
  { pose proof (startswith_zeros_le_64 _ _ Hwin). pose proof PY_SSIZE_T_bounds. lia. }
  destruct (least_winning_nonce _ b n Hn Hwin) as (k & Hk & Hwink & Hlow).
  exists (nonce b + Z.of_nat k)%Z.
  replace (Z.to_nat (nonce b + Z.of_nat k - nonce b)) with k by lia.
  split; [lia|]. split; [exact Hwink|]. split; [|split].
  - intros j Hj.
    replace j with (nonce b + Z.of_nat (Z.to_nat (j - nonce b)))%Z by lia.
    apply Hlow. lia.
  - intros fuel Hfuel. rewrite (proof_of_work_fits _ _ _ _ Hb Hfits).
    rewrite (proof_of_work_while_stops _ block k fuel b (objects s) Hb Hfuel Hlow Hwink).
    reflexivity.
  - intros fuel Hfuel. rewrite (proof_of_work_fits _ _ _ _ Hb Hfits).
    rewrite (proof_of_work_while_runs _ block fuel b (objects s) Hb); [reflexivity|].
    intros i Hi. apply Hlow. lia.
Qed.

Lemma proof_of_work_least_nonce_witness :
  ∃ m : Z,
    (0 ≤ m ≤ 3)%Z ∧
    startswith (hash_block (set_nonce sample_candidate m)) "0" = true ∧
    (∀ k, (0 ≤ k < m)%Z →
       startswith (hash_block (set_nonce sample_candidate k)) "0" = false) ∧
    (∀ fuel, (Z.to_nat (m - 0) ≤ fuel)%nat →
       proof_of_work fuel 1%nat sample_pending_state
       = Returns (1%nat,
                  mkState (<[1%nat := set_nonce sample_candidate m]>
                             (objects sample_pending_state))
                          (pychain sample_pending_state))) ∧
    (∀ fuel, (fuel < Z.to_nat (m - 0))%nat →
       proof_of_work fuel 1%nat sample_pending_state = OutOfFuel).
Proof.
  apply (proof_of_work_least_nonce sample_pending_state 1%nat sample_candidate 3).
  - vm_compute. reflexivity.
  - vm_compute. discriminate.
  - vm_compute. discriminate.
  - vm_compute. reflexivity.
Defined.

(** C6. A call of [proof_of_work] that returns hands back the reference it
    was given; the chain list and the difficulty are as before; every other
    block object is as before; and the block itself keeps its record,
    creator_id, prev_hash and timestamp. *)
Theorem proof_of_work_mutates_only_nonce
    (fuel : nat) (block : loc) (s : state) (r : loc) (s' : state) :
  proof_of_work fuel block s = Returns (r, s') →
  r = block ∧
  chain (pychain s') = chain (pychain s) ∧
  difficulty (pychain s') = difficulty (pychain s) ∧
  (∀ l, l ≠ block → objects s' !! l = objects s !! l) ∧
  ∃ b b',
    objects s !! block = Some b ∧ objects s' !! block = Some b' ∧
    record b' = record b ∧ creator_id b' = creator_id b ∧
    prev_hash b' = prev_hash b ∧ timestamp b' = timestamp b.
Proof.
  intros H.
  destruct (proof_of_work_inv _ _ _ _ H) as (b & res & Hb & _ & Hloop & Hr).
  injection Hr as -> ->. cbn [objects pychain].
  destruct (proof_of_work_while_frame _ _ _ _ _ _ _ Hb Hloop) as (m & Hm & ->).
  split; [reflexivity|]. split; [reflexivity|]. split; [reflexivity|]. split.
  - intros l Hl. apply lookup_insert_ne. congruence.
  - exists b, (set_nonce b m). rewrite lookup_insert_eq. simpl. tauto.
Qed.

Lemma proof_of_work_mutates_only_nonce_witness :
  1%nat = 1%nat ∧
  chain (pychain sample_mined_state) = chain (pychain sample_pending_state) ∧
  difficulty (pychain sample_mined_state)
  = difficulty (pychain sample_pending_state) ∧
  (∀ l, l ≠ 1%nat →
     objects sample_mined_state !! l = objects sample_pending_state !! l) ∧
  ∃ b b',
    objects sample_pending_state !! 1%nat = Some b ∧
    objects sample_mined_state !! 1%nat = Some b' ∧
    record b' = record b ∧ creator_id b' = creator_id b ∧
    prev_hash b' = prev_hash b ∧ timestamp b' = timestamp b.
Proof.
  apply (proof_of_work_mutates_only_nonce 5 1%nat sample_pending_state 1%nat
           sample_mined_state).
  vm_compute. reflexivity.
Defined.

(** C8. With a difficulty of zero or below that is no less than the least
    [Py_ssize_t], the required prefix is empty: [proof_of_work] returns
    without a single iteration of its loop (any fuel will do, none
    included), and the whole state, the block's nonce with it, is as it
    was. With a difficulty below the least [Py_ssize_t] the product
    ['0' * self.difficulty] raises OverflowError, and the call with it. *)
Theorem proof_of_work_nonpositive_difficulty
    (fuel : nat) (block : loc) (s : state) (b : Block) :
  (difficulty (pychain s) ≤ 0)%Z →
  objects s !! block = Some b →
  ((PY_SSIZE_T_MIN ≤ difficulty (pychain s))%Z →
   str_mul "0" (difficulty (pychain s)) = Returns EmptyString ∧
   startswith (hash_block b) EmptyString = true ∧
   proof_of_work fuel block s = Returns (block, s) ∧
   proof_of_work 0 block s = Returns (block, s)) ∧
  ((difficulty (pychain s) < PY_SSIZE_T_MIN)%Z →
   str_mul "0" (difficulty (pychain s)) = Raises OverflowError ∧
   proof_of_work fuel block s = Raises OverflowError).
Proof.
  intros Hd Hb. split.
  - intros Hmin.
    assert (Hfits : (PY_SSIZE_T_MIN ≤ difficulty (pychain s) ≤ PY_SSIZE_T_MAX)%Z)
      by (pose proof PY_SSIZE_T_bounds; lia).
    assert (Hz : zeros (difficulty (pychain s)) = EmptyString).
    { unfold zeros. replace (Z.to_nat (difficulty (pychain s))) with O by lia.
      reflexivity. }
    assert (Hpow : ∀ f, proof_of_work f block s = Returns (block, s)).
    { intros f. rewrite (proof_of_work_fits _ _ _ _ Hb Hfits), Hz.
      rewrite proof_of_work_while_eq, startswith_empty. cbn [snd].
      rewrite state_eta. reflexivity. }
    rewrite (str_mul_zeros _ Hfits), Hz, startswith_empty. repeat split; auto.
  - intros Hlow. split.
    + apply str_mul_overflow. left. exact Hlow.
    + apply (proof_of_work_overflow _ _ _ _ Hb). left. exact Hlow.
Qed.

Lemma proof_of_work_nonpositive_difficulty_witness :
  str_mul "0" (difficulty (pychain (set_difficulty 0 sample_pending_state)))
  = Returns EmptyString ∧
  startswith (hash_block sample_candidate) EmptyString = true ∧
  proof_of_work 7 1%nat (set_difficulty 0 sample_pending_state)
  = Returns (1%nat, set_difficulty 0 sample_pending_state) ∧
  proof_of_work 0 1%nat (set_difficulty 0 sample_pending_state)
  = Returns (1%nat, set_difficulty 0 sample_pending_state).
Proof.
  apply (proof_of_work_nonpositive_difficulty 7 1%nat
           (set_difficulty 0 sample_pending_state) sample_candidate).
  - vm_compute. discriminate.
  - vm_compute. reflexivity.
  - vm_compute. discriminate.
Defined.

(** The difficulty -2^63 - 1 is not positive, and [proof_of_work] does not
    return there: it raises OverflowError. *)
Lemma proof_of_work_nonpositive_difficulty_counterexample :
  (difficulty (pychain (set_difficulty (-9223372036854775809) sample_pending_state))
   ≤ 0)%Z ∧
  objects (set_difficulty (-9223372036854775809) sample_pending_state) !! 1%nat
  = Some sample_candidate ∧
  proof_of_work 0 1%nat (set_difficulty (-9223372036854775809) sample_pending_state)
  = Raises OverflowError.
Proof.
  split; [vm_compute; discriminate|]. split; vm_compute; reflexivity.
Qed.

(** ** Validation *)

Section Validation.

Variable σ : gmap loc Block.

Lemma is_valid_for_nil (h : string) : is_valid_for σ h [] = Returns true.
Proof. reflexivity. Qed.

Lemma is_valid_for_cons (h : string) (l : loc) (rest : list loc) :
  is_valid_for σ h (l :: rest)
  = match σ !! l with
    | Some b => if String.eqb h (prev_hash b)
                then is_valid_for σ (hash_block b) rest
                else Returns false
    | None => Stuck
    end.
Proof.
  unfold is_valid_for at 1; fold is_valid_for. unfold deref.
  destruct (σ !! l) as [b|]; [|reflexivity].
  cbn [mbind outcome_bind]. destruct (String.eqb h (prev_hash b)); reflexivity.
Qed.

Lemma block_at_0 (l : loc) (c : list loc) : block_at σ (l :: c) 0 = σ !! l.
Proof. reflexivity. Qed.

Lemma block_at_S (l : loc) (c : list loc) (i : nat) :
  block_at σ (l :: c) (S i) = block_at σ c i.
Proof. reflexivity. Qed.

Lemma block_at_nil (i : nat) : block_at σ [] i = None.
Proof. reflexivity. Qed.

Lemma allocated_Some (l : loc) : allocated σ l = true → ∃ b, σ !! l = Some b.
Proof. unfold allocated. destruct (σ !! l); [eauto|discriminate]. Qed.

(** On allocated blocks the loop returns, and it returns [True] exactly
    when every block is linked to the one before it. *)
Lemma is_valid_for_linked (rest : list loc) :
  ∀ (l0 : loc) (b0 : Block),
    σ !! l0 = Some b0 →
    forallb (allocated σ) rest = true →
    (∃ v, is_valid_for σ (hash_block b0) rest = Returns v) ∧
    (is_valid_for σ (hash_block b0) rest = Returns true
     ↔ ∀ i, linked σ (l0 :: rest) i).
Proof.
  induction rest as [|l1 rest IH]; intros l0 b0 Hb0 Hall.
  - rewrite is_valid_for_nil. split; [eauto|]. split; [|reflexivity].
    intros _ i b b' _ Hb'. rewrite block_at_S, block_at_nil in Hb'. discriminate.
  - cbn [forallb] in Hall. apply andb_prop in Hall as [Hl1 Hall].
    destruct (allocated_Some _ Hl1) as [b1 Hb1].
    rewrite is_valid_for_cons, Hb1.
    destruct (String.eqb (hash_block b0) (prev_hash b1)) eqn:Heq.
    + apply String.eqb_eq in Heq.
      destruct (IH l1 b1 Hb1 Hall) as [Hret Hiff]. split; [exact Hret|].
      rewrite Hiff. split.
      * intros H [|i] b b' Hb Hb'.
        -- rewrite block_at_0 in Hb. rewrite block_at_S, block_at_0 in Hb'.
           congruence.
        -- rewrite block_at_S in Hb, Hb'. exact (H i b b' Hb Hb').
      * intros H i b b' Hb Hb'. apply (H (S i)); rewrite block_at_S; assumption.
    + apply String.eqb_neq in Heq. split; [eauto|]. split; [discriminate|].
      intros H. exfalso. apply Heq. symmetry.
      apply (H O); [rewrite block_at_0|rewrite block_at_S, block_at_0]; assumption.
Qed.

(** The first broken link decides the result; the entries after it play
    no part, whatever they are. *)
Lemma is_valid_for_first_mismatch (i : nat) :
  ∀ (rest : list loc) (l0 : loc) (b0 : Block),
    σ !! l0 = Some b0 →
    (∀ j, (j ≤ S i)%nat → is_Some (block_at σ (l0 :: rest) j)) →
    (∀ j, (j < i)%nat → linked σ (l0 :: rest) j) →
    ¬ linked σ (l0 :: rest) i →
    is_valid_for σ (hash_block b0) rest = Returns false.
Proof.
  induction i as [|i IH]; intros rest l0 b0 Hb0 Hsome Hlinked Hbroken.
  - destruct (Hsome 1%nat ltac:(lia)) as [b1 Hb1].
    rewrite block_at_S in Hb1. destruct rest as [|l1 rest]; [discriminate|].
    rewrite block_at_0 in Hb1. rewrite is_valid_for_cons, Hb1.
    destruct (String.eqb (hash_block b0) (prev_hash b1)) eqn:Heq; [|reflexivity].
    apply String.eqb_eq in Heq. exfalso. apply Hbroken.
    intros b b' Hb Hb'. rewrite block_at_0 in Hb.
    rewrite block_at_S, block_at_0 in Hb'. congruence.
  - destruct (Hsome 1%nat ltac:(lia)) as [b1 Hb1].
    rewrite block_at_S in Hb1. destruct rest as [|l1 rest]; [discriminate|].
    rewrite block_at_0 in Hb1. rewrite is_valid_for_cons, Hb1.
    assert (Heq : prev_hash b1 = hash_block b0).
    { apply (Hlinked O ltac:(lia)); [rewrite block_at_0|rewrite block_at_S, block_at_0];
        assumption. }
    rewrite <- Heq, String.eqb_refl.
    apply (IH rest l1 b1 Hb1).
    + intros j Hj. rewrite <- block_at_S with (l := l0). apply Hsome. lia.
    + intros j Hj b b' Hb Hb'. apply (Hlinked (S j) ltac:(lia));
        rewrite block_at_S; assumption.
    + intros H. apply Hbroken. intros b b' Hb Hb'.
      rewrite block_at_S in Hb, Hb'. exact (H b b' Hb Hb').
Qed.

End Validation.

(** The loop reads the digest of every block but the last, and of the last
    block only its prev_hash. *)
Lemma is_valid_for_tail (σ σ' : gmap loc Block) (t : loc) (init : list loc) :
  ∀ h : string,
    (∀ l, l ∈ init → σ' !! l = σ !! l) →
    prev_hash <$> σ' !! t = prev_hash <$> σ !! t →
    is_valid_for σ' h (init ++ [t]) = is_valid_for σ h (init ++ [t]).
Proof.
  induction init as [|l init IH]; intros h Hinit Ht.
  - cbn [app]. rewrite !is_valid_for_cons.
    destruct (σ' !! t) as [b'|], (σ !! t) as [b|]; try discriminate; [|reflexivity].
    injection Ht as ->. rewrite !is_valid_for_nil. reflexivity.
  - cbn [app]. rewrite !is_valid_for_cons.
    rewrite (Hinit l) by apply list_elem_of_here.
    destruct (σ !! l) as [b|]; [|reflexivity].
    destruct (String.eqb h (prev_hash b)); [|reflexivity].
    apply IH; [|exact Ht]. intros l' Hl'. apply Hinit. apply list_elem_of_further. exact Hl'.
Qed.

Lemma is_valid_ignores_tail (s s' : state) (init : list loc) (t : loc) :
  chain (pychain s) = init ++ [t] →
  chain (pychain s') = init ++ [t] →
  (∀ l, l ∈ init → objects s' !! l = objects s !! l) →
  prev_hash <$> objects s' !! t = prev_hash <$> objects s !! t →
  is_valid s' = is_valid s.
Proof.
  intros Hc Hc' Hinit Ht. unfold is_valid. rewrite Hc, Hc'.
  destruct init as [|first init]; cbn [app]; unfold deref.
  - destruct (objects s' !! t), (objects s !! t); try discriminate; reflexivity.
  - rewrite (Hinit first) by apply list_elem_of_here.
    destruct (objects s !! first) as [b|]; [|reflexivity].
    cbn [mbind outcome_bind]. apply is_valid_for_tail; [|exact Ht].
    intros l Hl. apply Hinit. apply list_elem_of_further. exact Hl.
Qed.

Example sample_add_block :
  add_block 5 1%nat sample_pending_state = Returns sample_chain_state.
Proof. vm_compute. reflexivity. Qed.

(** C2. On a chain whose entries are block objects, [is_valid] returns a
    boolean, and it returns [True] exactly when every block from position 1
    on stores as prev_hash the digest recomputed from the block before it.
    When position [i + 1] is the first whose prev_hash differs, the result
    is [False] whatever follows in the list: nothing is assumed of the later
    entries, which are not read. *)
Theorem is_valid_checks_links (s : state) :
  (well_formed s = true →
   (∃ v, is_valid s = Returns v) ∧
   (is_valid s = Returns true
    ↔ ∀ i, linked (objects s) (chain (pychain s)) i)) ∧
  (∀ i,
     (∀ j, (j ≤ S i)%nat → is_Some (block_at (objects s) (chain (pychain s)) j)) →
     (∀ j, (j < i)%nat → linked (objects s) (chain (pychain s)) j) →
     ¬ linked (objects s) (chain (pychain s)) i →
     is_valid s = Returns false).
Proof.
  split.
  - unfold well_formed, is_valid. intros Hwf.
    destruct (chain (pychain s)) as [|first rest]; [discriminate|].
    cbn [forallb] in Hwf. apply andb_prop in Hwf as [Hfirst Hrest].
    destruct (allocated_Some _ _ Hfirst) as [b0 Hb0].
    unfold deref. rewrite Hb0. cbn [mbind outcome_bind].
    apply is_valid_for_linked; assumption.
  - intros i Hsome Hlinked Hbroken. unfold is_valid.
    destruct (chain (pychain s)) as [|first rest].
    + destruct (Hsome O ltac:(lia)) as [b Hb]. discriminate.
    + destruct (Hsome O ltac:(lia)) as [b0 Hb0]. rewrite block_at_0 in Hb0.
      unfold deref. rewrite Hb0. cbn [mbind outcome_bind].
      apply (is_valid_for_first_mismatch _ i rest first b0); assumption.
Qed.

Lemma is_valid_checks_links_witness :
  ((∃ v, is_valid sample_chain_state = Returns v) ∧
   (is_valid sample_chain_state = Returns true
    ↔ ∀ i, linked (objects sample_chain_state)
                  (chain (pychain sample_chain_state)) i)) ∧
  is_valid sample_tampered_state = Returns false.
Proof.
  split.
  - apply (proj1 (is_valid_checks_links sample_chain_state)).
    vm_compute. reflexivity.
  - apply (proj2 (is_valid_checks_links sample_tampered_state) O).
    + intros [|[|j]] Hj; [vm_compute; eexists; reflexivity..|lia].
    + intros j Hj. lia.
    + intros H.
      assert (H0 : block_at (objects sample_tampered_state)
                     (chain (pychain sample_tampered_state)) 0
                   = Some sample_tampered_genesis) by (vm_compute; reflexivity).
      assert (H1 : block_at (objects sample_tampered_state)
                     (chain (pychain sample_tampered_state)) 1
                   = Some (set_nonce sample_candidate 3)) by (vm_compute; reflexivity).
      specialize (H _ _ H0 H1). apply String.eqb_eq in H. vm_compute in H.
      discriminate H.
Defined.

(** C9. [is_valid] never looks at the digest of the last block. Two states
    with the same chain list that hold the same blocks at every position
    but the last, and the same prev_hash in the last block, get the same
    result; so overwriting record, creator_id, timestamp or nonce of a tail
    object that sits at no earlier position goes unnoticed; and a chain of
    the genesis block alone is valid whatever that block holds. *)
Theorem tail_block_is_never_checked (s : state) (init : list loc) (t : loc) :
  chain (pychain s) = init ++ [t] →
  (∀ s', chain (pychain s') = init ++ [t] →
         (∀ l, l ∈ init → objects s' !! l = objects s !! l) →
         prev_hash <$> objects s' !! t = prev_hash <$> objects s !! t →
         is_valid s' = is_valid s) ∧
  (∀ b b', t ∉ init → objects s !! t = Some b → prev_hash b' = prev_hash b →
           is_valid (mkState (<[t := b']> (objects s)) (pychain s)) = is_valid s) ∧
  (∀ b, init = [] → objects s !! t = Some b → is_valid s = Returns true).
Proof.
  intros Hc. split; [|split].
  - intros s' Hc' Hinit Ht. exact (is_valid_ignores_tail s s' init t Hc Hc' Hinit Ht).
  - intros b b' Hnotin Hb Hprev.
    apply (is_valid_ignores_tail s _ init t Hc); cbn [objects pychain].
    + exact Hc.
    + intros l Hl. apply lookup_insert_ne. intros ->. exact (Hnotin Hl).
    + rewrite lookup_insert_eq, Hb. cbn. congruence.
  - intros b -> Hb. unfold is_valid, deref. rewrite Hc. cbn [app].
    rewrite Hb. reflexivity.
Qed.

Lemma tail_block_is_never_checked_witness :
  is_valid (mkState (<[1%nat := mkBlock (Transaction (mkRecord "a" "b" (AmountText "99")))
                                        7 (prev_hash sample_candidate) "23:59:59" 0]>
                       (objects sample_chain_state))
                    (pychain sample_chain_state))
  = is_valid sample_chain_state.
Proof.
  destruct (tail_block_is_never_checked sample_chain_state [0%nat] 1%nat eq_refl)
    as (_ & Hmutated & _).
  apply (Hmutated (set_nonce sample_candidate 3)).
  - intros Hin. apply list_elem_of_singleton in Hin. discriminate Hin.
  - vm_compute. reflexivity.
  - reflexivity.
Defined.

(** ** Appending blocks *)

(** What [add_block] leaves behind when it returns. *)
Lemma add_block_returns (fuel : nat) (candidate_block : loc) (s s' : state) :
  add_block fuel candidate_block s = Returns s' →
  ∃ b m,
    objects s !! candidate_block = Some b ∧ (nonce b ≤ m)%Z ∧
    s' = mkState (<[candidate_block := set_nonce b m]> (objects s))
                 (mkPyChain (chain (pychain s) ++ [candidate_block])
                            (difficulty (pychain s))).
Proof.
  unfold add_block. intros H.
  destruct (proof_of_work fuel candidate_block s) as [r| | |] eqn:Hpow;
    cbn [mbind outcome_bind] in H; try discriminate H.
  destruct (proof_of_work_inv _ _ _ _ Hpow) as (b & res & Hb & _ & Hloop & ->).
  destruct (proof_of_work_while_frame _ _ _ _ _ _ _ Hb Hloop) as (m & Hm & Hres).
  exists b, m. split; [exact Hb|]. split; [exact Hm|].
  injection H as <-. cbn [fst snd objects pychain]. rewrite Hres. reflexivity.
Qed.

(** The block that [add_block] appends is mined: the search made [k]
    increments, the digest at the nonce it stopped at starts with the zeros
    of the difficulty, and no digest before did. *)
Lemma add_block_mined (fuel : nat) (candidate_block : loc) (s s' : state) :
  add_block fuel candidate_block s = Returns s' →
  ∃ (b : Block) (k : nat),
    objects s !! candidate_block = Some b ∧ (k ≤ fuel)%nat ∧
    (PY_SSIZE_T_MIN ≤ difficulty (pychain s) ≤ PY_SSIZE_T_MAX)%Z ∧
    startswith (hash_block (set_nonce b (nonce b + Z.of_nat k)))
               (zeros (difficulty (pychain s))) = true ∧
    (∀ i, (i < k)%nat →
       startswith (hash_block (set_nonce b (nonce b + Z.of_nat i)))
                  (zeros (difficulty (pychain s))) = false) ∧
    s' = mkState (<[candidate_block := set_nonce b (nonce b + Z.of_nat k)]> (objects s))
                 (mkPyChain (chain (pychain s) ++ [candidate_block])
                            (difficulty (pychain s))).
Proof.
  unfold add_block. intros H.
  destruct (proof_of_work fuel candidate_block s) as [r| | |] eqn:Hpow;
    cbn [mbind outcome_bind] in H; try discriminate H.
  destruct (proof_of_work_inv _ _ _ _ Hpow) as (b & res & Hb & Hfits & Hloop & ->).
  destruct (proof_of_work_while_result _ _ _ _ _ _ Hb Hloop)
    as (k & Hk & Hstore & _ & Hwins & Hlow).
  exists b, k. split; [exact Hb|]. split; [exact Hk|]. split; [exact Hfits|].
  split; [exact Hwins|]. split; [exact Hlow|].
  injection H as <-. cbn [fst snd objects pychain]. rewrite Hstore. reflexivity.
Qed.

(** With a difficulty that fits, [add_block] on a block object returns or
    is still mining: it raises nothing. *)
Lemma add_block_no_failure (fuel : nat) (candidate_block : loc) (s : state) (b : Block) :
  objects s !! candidate_block = Some b →
  (PY_SSIZE_T_MIN ≤ difficulty (pychain s) ≤ PY_SSIZE_T_MAX)%Z →
  (∃ s', add_block fuel candidate_block s = Returns s')
  ∨ add_block fuel candidate_block s = OutOfFuel.
Proof.
  intros Hb Hfits. unfold add_block. rewrite (proof_of_work_fits _ _ _ _ Hb Hfits).
  destruct (proof_of_work_while_no_failure
              (zeros (difficulty (pychain s))) candidate_block fuel b
              (objects s) (hash_block b) Hb) as [[r ->] | ->];
    cbn [mbind outcome_bind]; eauto.
Qed.

Lemma add_blocks_chain (calls : list (nat * loc)) :
  ∀ s s', add_blocks calls s = Returns s' →
          chain (pychain s') = chain (pychain s) ++ map snd calls.
Proof.
  induction calls as [|[fuel l] calls IH]; intros s s' H.
  - injection H as <-. rewrite app_nil_r. reflexivity.
  - cbn [add_blocks fst snd] in H.
    destruct (add_block fuel l s) as [s1| | |] eqn:Hadd;
      cbn [mbind outcome_bind] in H; try discriminate.
    rewrite (IH _ _ H).
    destruct (add_block_returns _ _ _ _ Hadd) as (b & m & _ & _ & ->).
    cbn [map snd pychain chain]. rewrite <- app_assoc. reflexivity.
Qed.

(** C5. [add_block] hands the candidate to [proof_of_work] and appends what
    comes back. When the call returns, the chain list is the old list with
    the candidate appended, one longer; the difficulty is as before; every
    other block object is as before; and the candidate is mined: at most
    its nonce has moved, to the least value from its own on whose digest
    starts with the zeros of the difficulty. After [N] returned calls the
    list has [N] more entries, [1 + N] when it started from one. Not every
    call returns. With a difficulty from the least [Py_ssize_t] up to 64
    the call raises nothing: it returns or is still searching when the fuel
    is spent, and it returns, with enough fuel, whenever some nonce from
    the candidate's on meets the difficulty. With a difficulty above 64 the
    call never returns, and with one outside [Py_ssize_t] it raises
    OverflowError. *)
Theorem add_block_appends (s : state) (candidate_block : loc) (b : Block) :
  objects s !! candidate_block = Some b →
  (∀ fuel s',
     add_block fuel candidate_block s = Returns s' →
     chain (pychain s') = chain (pychain s) ++ [candidate_block] ∧
     length (chain (pychain s')) = S (length (chain (pychain s))) ∧
     difficulty (pychain s') = difficulty (pychain s) ∧
     (∀ l, l ≠ candidate_block → objects s' !! l = objects s !! l) ∧
     ∃ m, (nonce b ≤ m)%Z ∧
          objects s' !! candidate_block = Some (set_nonce b m) ∧
          startswith (hash_block (set_nonce b m))
                     (zeros (difficulty (pychain s))) = true ∧
          ∀ k, (nonce b ≤ k < m)%Z →
               startswith (hash_block (set_nonce b k))
                          (zeros (difficulty (pychain s))) = false) ∧
  (∀ calls s',
     add_blocks calls s = Returns s' →
     chain (pychain s') = chain (pychain s) ++ map snd calls ∧
     (length (chain (pychain s)) = 1%nat →
      length (chain (pychain s')) = (1 + length calls)%nat)) ∧
  ((PY_SSIZE_T_MIN ≤ difficulty (pychain s) ≤ 64)%Z →
   (∀ fuel,
      (∃ s', add_block fuel candidate_block s = Returns s')
      ∨ add_block fuel candidate_block s = OutOfFuel) ∧
   (∀ n, (nonce b ≤ n)%Z →
         startswith (hash_block (set_nonce b n))
                    (zeros (difficulty (pychain s))) = true →
         ∃ m, (nonce b ≤ m ≤ n)%Z ∧
              ∀ fuel, (Z.to_nat (m - nonce b) ≤ fuel)%nat →
                      ∃ s', add_block fuel candidate_block s = Returns s')) ∧
  ((64 < difficulty (pychain s))%Z →
   ∀ fuel s', add_block fuel candidate_block s ≠ Returns s') ∧
  ((difficulty (pychain s) < PY_SSIZE_T_MIN
    ∨ PY_SSIZE_T_MAX < difficulty (pychain s))%Z →
   ∀ fuel, add_block fuel candidate_block s = Raises OverflowError).
Proof.
  intros Hb. split; [|split; [|split; [|split]]].
  - intros fuel s' Hadd.
    destruct (add_block_mined _ _ _ _ Hadd) as (b0 & k & Hb0 & _ & _ & Hwins & Hlow & ->).
    rewrite Hb in Hb0. injection Hb0 as <-.
    cbn [objects pychain chain difficulty].
    split; [reflexivity|]. split; [|split; [reflexivity|split]].
    + rewrite length_app. cbn [length]. lia.
    + intros l Hl. apply lookup_insert_ne. congruence.
    + exists (nonce b + Z.of_nat k)%Z. split; [lia|].
      split; [apply lookup_insert_eq|]. split; [exact Hwins|].
      intros j Hj.
      replace j with (nonce b + Z.of_nat (Z.to_nat (j - nonce b)))%Z by lia.
      apply Hlow. lia.
  - intros calls s' Hrun. pose proof (add_blocks_chain calls s s' Hrun) as Hc.
    split; [exact Hc|]. intros Hlen.
    rewrite Hc, length_app, length_map, Hlen. reflexivity.
  - intros Hd.
    assert (Hfits : (PY_SSIZE_T_MIN ≤ difficulty (pychain s) ≤ PY_SSIZE_T_MAX)%Z)
      by (pose proof PY_SSIZE_T_bounds; lia).
    split.
    + intros fuel. exact (add_block_no_failure fuel candidate_block s b Hb Hfits).
    + intros n Hn Hwin.
      destruct (least_winning_nonce _ b n Hn Hwin) as (k & Hk & Hwink & Hlow).
      exists (nonce b + Z.of_nat k)%Z. split; [lia|].
      replace (Z.to_nat (nonce b + Z.of_nat k - nonce b)) with k by lia.
      intros fuel Hfuel. eexists. unfold add_block.
      rewrite (proof_of_work_fits _ _ _ _ Hb Hfits).
      rewrite (proof_of_work_while_stops _ candidate_block k fuel b (objects s)
                 Hb Hfuel Hlow Hwink).
      reflexivity.
  - intros Hd fuel s' Hadd.
    destruct (add_block_mined _ _ _ _ Hadd) as (b0 & k & _ & _ & _ & Hwins & _).
    rewrite startswith_too_many_zeros in Hwins by exact Hd. discriminate Hwins.
  - intros Hd fuel. unfold add_block.
    rewrite (proof_of_work_overflow _ _ _ _ Hb Hd). reflexivity.
Qed.

Lemma add_block_appends_witness :
  add_block 5 1%nat sample_pending_state = Returns sample_chain_state ∧
  chain (pychain sample_chain_state)
  = chain (pychain sample_pending_state) ++ [1%nat] ∧
  length (chain (pychain sample_chain_state)) = 2%nat ∧
  ∃ m, (nonce sample_candidate ≤ m)%Z ∧
       objects sample_chain_state !! 1%nat = Some (set_nonce sample_candidate m) ∧
       startswith (hash_block (set_nonce sample_candidate m))
                  (zeros (difficulty (pychain sample_pending_state))) = true ∧
       ∀ k, (nonce sample_candidate ≤ k < m)%Z →
            startswith (hash_block (set_nonce sample_candidate k))
                       (zeros (difficulty (pychain sample_pending_state))) = false.
Proof.
  assert (Hb : objects sample_pending_state !! 1%nat = Some sample_candidate)
    by (vm_compute; reflexivity).
  assert (Hadd : add_block 5 1%nat sample_pending_state = Returns sample_chain_state)
    by (vm_compute; reflexivity).
  destruct (add_block_appends sample_pending_state 1%nat sample_candidate Hb)
    as (Heffect & _).
  destruct (Heffect 5%nat sample_chain_state Hadd) as (Hchain & Hlen & _ & _ & Hmined).
  split; [exact Hadd|]. split; [exact Hchain|]. split; [exact Hlen|exact Hmined].
Defined.

(** With the difficulty at 2^63 the call of [add_block] on the sample
    candidate does not succeed: it raises OverflowError. *)
Lemma add_block_appends_counterexample :
  objects (set_difficulty 9223372036854775808 sample_pending_state) !! 1%nat
  = Some sample_candidate ∧
  add_block 5 1%nat (set_difficulty 9223372036854775808 sample_pending_state)
  = Raises OverflowError.
Proof. split; vm_compute; reflexivity. Qed.

(** ** Chains grown by the Add Block action *)

(** The loop reads only the blocks that the list names. *)
Lemma is_valid_for_agree (σ σ' : gmap loc Block) (rest : list loc) :
  ∀ h : string,
    (∀ l, l ∈ rest → σ' !! l = σ !! l) →
    is_valid_for σ' h rest = is_valid_for σ h rest.
Proof.
  induction rest as [|l rest IH]; intros h Hrest; [reflexivity|].
  rewrite !is_valid_for_cons. rewrite (Hrest l) by apply list_elem_of_here.
  destruct (σ !! l) as [b|]; [|reflexivity].
  destruct (String.eqb h (prev_hash b)); [|reflexivity].
  apply IH. intros l' Hl'. apply Hrest. apply list_elem_of_further. exact Hl'.
Qed.

(** A valid chain stays valid when a block that stores the digest of the
    tail is put after it. *)
Lemma is_valid_for_snoc (σ : gmap loc Block) (t : loc) (bt : Block) (rest : list loc) :
  ∀ (first : loc) (b0 : Block) (tail : loc) (tb : Block),
    σ !! first = Some b0 →
    last (first :: rest) = Some tail →
    σ !! tail = Some tb →
    is_valid_for σ (hash_block b0) rest = Returns true →
    σ !! t = Some bt →
    prev_hash bt = hash_block tb →
    is_valid_for σ (hash_block b0) (rest ++ [t]) = Returns true.
Proof.
  induction rest as [|l rest IH]; intros first b0 tail tb Hb0 Hlast Htb Hvalid Hbt Hprev.
  - cbn [last] in Hlast. injection Hlast as <-.
    rewrite Hb0 in Htb. injection Htb as <-.
    cbn [app]. rewrite is_valid_for_cons, Hbt, Hprev, String.eqb_refl.
    reflexivity.
  - cbn [app]. rewrite is_valid_for_cons in Hvalid |- *.
    destruct (σ !! l) as [b|] eqn:Hb; [|discriminate].
    destruct (String.eqb (hash_block b0) (prev_hash b)); [|discriminate].
    apply (IH l b tail tb); assumption.
Qed.

Lemma fresh_not_allocated (σ : gmap loc Block) : σ !! fresh (dom σ) = None.
Proof. apply not_elem_of_dom. apply is_fresh. Qed.

(** The handler of the Add Block button is such an action. *)
Lemma add_block_handler_mined (fuel : nat) (cls : Block_class)
    (sender_data receiver_data amount_data : string) (s s' : state) :
  mined s →
  add_block_handler fuel cls sender_data receiver_data amount_data s = Returns s' →
  mined s'.
Proof.
  intros Hs. unfold add_block_handler, deref.
  destruct (last (chain (pychain s))) as [tail|] eqn:Hlast;
    cbn [mbind outcome_bind]; [|discriminate].
  destruct (objects s !! tail) as [tb|] eqn:Htb;
    cbn [mbind outcome_bind]; [|discriminate].
  intros Hadd. exact (mined_add s tail tb _ _ _ _ fuel s' Hs Hlast Htb Hadd).
Qed.

(** C3. Validation soundness: every chain built by [setup()] followed by
    slider moves and Add Block actions, each of which constructs a block
    that stores the digest of the present tail, mines it and appends it,
    validates; and every entry of its list is a block object. *)
Theorem mined_chain_is_valid (s : state) :
  mined s → closed s ∧ is_valid s = Returns true.
Proof.
  induction 1 as [cls | s d _ [Hclosed Hvalid]
                 | s tail tb rec cid ts n0 fuel s' _ [Hclosed Hvalid] Hlast Htb Hadd].
  - unfold setup, new, closed, is_valid, deref. cbn [fst snd objects pychain chain].
    split.
    + intros l Hl. apply list_elem_of_singleton in Hl as ->.
      rewrite lookup_insert_eq. eauto.
    + rewrite lookup_insert_eq. reflexivity.
  - split; [exact Hclosed|exact Hvalid].
  - unfold new in Hadd. cbn [fst snd] in Hadd.
    set (l := fresh (dom (objects s))) in *.
    set (cand := mkBlock rec cid (hash_block tb) ts n0) in *.
    destruct (add_block_returns _ _ _ _ Hadd) as (b & m & Hb & Hm & ->).
    cbn [objects pychain chain difficulty] in *.
    rewrite lookup_insert_eq in Hb. injection Hb as <-.
    rewrite insert_insert_eq.
    assert (Hfresh : ∀ l', l' ∈ chain (pychain s) → l' ≠ l).
    { intros l' Hl' ->. destruct (Hclosed l Hl') as [x Hx].
      unfold l in Hx. rewrite fresh_not_allocated in Hx. discriminate. }
    split.
    + intros l' Hl'. cbn [objects pychain chain] in *.
      apply elem_of_app in Hl' as [Hl'|Hl'].
      * rewrite lookup_insert_ne by (apply not_eq_sym, Hfresh, Hl').
        apply Hclosed, Hl'.
      * apply list_elem_of_singleton in Hl' as ->. rewrite lookup_insert_eq. eauto.
    + unfold is_valid, deref in Hvalid |- *. cbn [objects pychain chain].
      destruct (chain (pychain s)) as [|first rest] eqn:Hc; [discriminate|].
      destruct (objects s !! first) as [b0|] eqn:Hb0; [|discriminate].
      cbn [mbind outcome_bind] in Hvalid.
      assert (Hfirst : first ≠ l) by (apply Hfresh, list_elem_of_here).
      cbn [app]. rewrite lookup_insert_ne by (apply not_eq_sym, Hfirst).
      rewrite Hb0. cbn [mbind outcome_bind].
      apply (is_valid_for_snoc _ l (set_nonce cand m) rest first b0 tail tb).
      * rewrite lookup_insert_ne by (apply not_eq_sym, Hfirst). exact Hb0.
      * exact Hlast.
      * rewrite lookup_insert_ne; [exact Htb|].
        apply not_eq_sym, Hfresh. apply last_Some_elem_of. exact Hlast.
      * rewrite <- Hvalid. apply is_valid_for_agree.
        intros l' Hl'. apply lookup_insert_ne.
        apply not_eq_sym, Hfresh. apply list_elem_of_further. exact Hl'.
      * apply lookup_insert_eq.
      * reflexivity.
Qed.

(** The handler run on the entries a, b, 10 after [setup()] at difficulty 1
    builds the sample chain. *)
Example sample_add_block_handler :
  add_block_handler 5 sample_class "a" "b" "10" sample_genesis_state
  = Returns sample_chain_state.
Proof. vm_compute. reflexivity. Qed.

Lemma sample_chain_mined : mined sample_chain_state.
Proof.
  apply (mined_add sample_genesis_state 0%nat (genesis sample_class)
           (Transaction (mkRecord "a" "b" (AmountText "10"))) seed
           "08:30:05" 0 5%nat sample_chain_state).
  - apply (mined_difficulty (setup sample_class) 1). apply mined_setup.
  - vm_compute. reflexivity.
  - vm_compute. reflexivity.
  - vm_compute. reflexivity.
Defined.

Lemma mined_chain_is_valid_witness :
  closed sample_chain_state ∧ is_valid sample_chain_state = Returns true.
Proof. exact (mined_chain_is_valid sample_chain_state sample_chain_mined). Defined.

(** ** Reachable states *)

Section Reachable.

Lemma same_but_nonce_refl (b : Block) : same_but_nonce b b.
Proof. unfold same_but_nonce. tauto. Qed.

Lemma same_but_nonce_trans (b1 b2 b3 : Block) :
  same_but_nonce b1 b2 → same_but_nonce b2 b3 → same_but_nonce b1 b3.
Proof. unfold same_but_nonce. intuition congruence. Qed.

Lemma grows_refl (s : state) : grows s s.
Proof.
  split; [reflexivity|]. intros l b Hb. exists b.
  split; [exact Hb|apply same_but_nonce_refl].
Qed.

Lemma grows_trans (s1 s2 s3 : state) : grows s1 s2 → grows s2 s3 → grows s1 s3.
Proof.
  intros [Hp12 Ho12] [Hp23 Ho23]. split; [etransitivity; eassumption|].
  intros l b Hb. destruct (Ho12 l b Hb) as (b2 & Hb2 & Hs2).
  destruct (Ho23 l b2 Hb2) as (b3 & Hb3 & Hs3).
  exists b3. split; [exact Hb3|]. exact (same_but_nonce_trans _ _ _ Hs2 Hs3).
Qed.

Lemma step_grows (s : state) (a : action) (s' : state) : step s a s' → grows s s'.
Proof.
  destruct 1 as [s b | s fuel l s' Hadd | s d | s o _]; try apply grows_refl.
  - split; [reflexivity|]. intros l b0 Hb0. exists b0.
    split; [|apply same_but_nonce_refl].
    unfold new. cbn [snd objects]. rewrite lookup_insert_ne; [exact Hb0|].
    intros Heq. rewrite <- Heq, fresh_not_allocated in Hb0. discriminate.
  - destruct (add_block_returns _ _ _ _ Hadd) as (b & m & Hb & _ & ->).
    split; cbn [objects pychain chain].
    + apply prefix_app_r. reflexivity.
    + intros l0 b0 Hb0. destruct (decide (l = l0)) as [<-|Hne].
      * rewrite Hb in Hb0. injection Hb0 as <-.
        exists (set_nonce b m). rewrite lookup_insert_eq.
        split; [reflexivity|]. unfold same_but_nonce. cbn. tauto.
      * exists b0. rewrite lookup_insert_ne by exact Hne.
        split; [exact Hb0|apply same_but_nonce_refl].
  - split; [reflexivity|]. intros l b Hb. exists b.
    split; [exact Hb|apply same_but_nonce_refl].
Qed.

Lemma steps_grows (allowed : state → action → Prop) (s s' : state) :
  steps allowed s s' → grows s s'.
Proof.
  induction 1 as [s | s s' a s'' _ IH _ Hstep]; [apply grows_refl|].
  exact (grows_trans _ _ _ IH (step_grows _ _ _ Hstep)).
Qed.

Lemma step_keeps (s : state) (a : action) (s' : state) :
  step s a s' → ¬ resubmits s a → keeps s s'.
Proof.
  destruct 1 as [s b | s fuel l s' Hadd | s d | s o _]; intros Hfresh l0 b0 Hl0 Hb0;
    try exact Hb0.
  - unfold new. cbn [snd objects]. rewrite lookup_insert_ne; [exact Hb0|].
    intros Heq. rewrite <- Heq, fresh_not_allocated in Hb0. discriminate.
  - destruct (add_block_returns _ _ _ _ Hadd) as (b & m & Hb & _ & ->).
    cbn [objects]. rewrite lookup_insert_ne; [exact Hb0|].
    intros ->. exact (Hfresh Hl0).
Qed.

Lemma steps_keeps (s s' : state) : steps fresh_candidates s s' → keeps s s'.
Proof.
  induction 1 as [s | s s' a s'' Hsteps IH Hallowed Hstep];
    intros l b Hl Hb; [exact Hb|].
  apply (step_keeps _ _ _ Hstep Hallowed).
  - destruct (steps_grows _ _ _ Hsteps) as [Hprefix _].
    exact (elem_of_prefix _ _ _ Hl Hprefix).
  - exact (IH l b Hl Hb).
Qed.

Lemma steps_trans (allowed : state → action → Prop) (s1 s2 s3 : state) :
  steps allowed s1 s2 → steps allowed s2 s3 → steps allowed s1 s3.
Proof.
  intros H12 H23. induction H23 as [s | s s' a s'' _ IH Hallowed Hstep];
    [exact H12|].
  exact (steps_step _ _ _ _ _ (IH H12) Hallowed Hstep).
Qed.

End Reachable.

(** C4. From [setup()], whatever blocks are constructed, whatever block
    objects are handed to [add_block] and however the difficulty is moved
    and validation asked for: the chain list is never empty; its entry 0 is
    the genesis object, which still carries the placeholder record,
    creator_id 0 and prev_hash "0"; from any reachable state [s] to any
    later state [s'] the list of [s] is a prefix of the list of [s'], so
    every position of [s] holds the same object in [s'], and that object has
    at most its nonce moved. When no call hands to [add_block] a block that
    the chain holds already, as in the interface, the blocks of the chain
    are untouched, nonce included. *)
Theorem chain_is_append_only (cls : Block_class) (s s' : state) :
  steps any_call (setup cls) s →
  steps any_call s s' →
  chain (pychain s') ≠ [] ∧
  chain (pychain s') !! 0%nat = Some (fst (new (genesis cls) ∅)) ∧
  (∃ b, objects s' !! fst (new (genesis cls) ∅) = Some b ∧
        record b = Placeholder "Genesis" ∧ creator_id b = 0%Z ∧
        prev_hash b = "0"%string ∧ timestamp b = default_timestamp cls) ∧
  chain (pychain s) `prefix_of` chain (pychain s') ∧
  (∀ i l, chain (pychain s) !! i = Some l → chain (pychain s') !! i = Some l) ∧
  (∀ l b, l ∈ chain (pychain s) → objects s !! l = Some b →
          ∃ b', objects s' !! l = Some b' ∧ same_but_nonce b b') ∧
  (steps fresh_candidates s s' →
   ∀ l b, l ∈ chain (pychain s) → objects s !! l = Some b →
          objects s' !! l = Some b) ∧
  (steps fresh_candidates (setup cls) s' →
   objects s' !! fst (new (genesis cls) ∅) = Some (genesis cls)).
Proof.
  intros Hs Hs'.
  pose proof (steps_grows _ _ _ (steps_trans _ _ _ _ Hs Hs')) as [Hp0 Ho0].
  pose proof (steps_grows _ _ _ Hs') as [Hp Ho].
  assert (Hg : objects (setup cls) !! fst (new (genesis cls) ∅) = Some (genesis cls)).
  { unfold setup, new. cbn [fst snd objects]. apply lookup_insert_eq. }
  assert (H0 : chain (pychain s') !! 0%nat = Some (fst (new (genesis cls) ∅))).
  { apply (prefix_lookup_Some _ _ _ _ (eq_refl : chain (pychain (setup cls)) !! 0%nat = _) Hp0). }
  split; [|split; [exact H0|split; [|split; [exact Hp|split; [|split; [|split]]]]]].
  - intros Hnil. rewrite Hnil in H0. discriminate.
  - destruct (Ho0 _ _ Hg) as (b & Hb & Hrec & Hcid & Hprev & Hts).
    exists b. split; [exact Hb|]. rewrite Hrec, Hcid, Hprev, Hts.
    repeat split.
  - intros i l Hl. exact (prefix_lookup_Some _ _ _ _ Hl Hp).
  - intros l b _ Hb. exact (Ho l b Hb).
  - intros Hfresh. exact (steps_keeps _ _ Hfresh).
  - intros Hfresh. apply (steps_keeps _ _ Hfresh); [|exact Hg].
    apply list_elem_of_here.
Qed.

Lemma sample_pending_reachable : steps any_call (setup sample_class) sample_pending_state.
Proof.
  apply (steps_step _ _ sample_genesis_state (Construct sample_candidate));
    [|exact I|apply step_construct].
  apply (steps_step _ _ (setup sample_class) (SetDifficulty 1));
    [apply steps_refl|exact I|apply step_set_difficulty].
Defined.

Lemma sample_chain_reachable : steps any_call sample_pending_state sample_chain_state.
Proof.
  apply (steps_step _ _ sample_pending_state (AddBlock 5 1%nat));
    [apply steps_refl|exact I|].
  apply step_add_block. vm_compute. reflexivity.
Defined.

Lemma chain_is_append_only_witness :
  chain (pychain sample_chain_state) ≠ [] ∧
  chain (pychain sample_chain_state) !! 0%nat = Some (fst (new (genesis sample_class) ∅)) ∧
  chain (pychain sample_pending_state) `prefix_of` chain (pychain sample_chain_state).
Proof.
  destruct (chain_is_append_only sample_class sample_pending_state sample_chain_state
              sample_pending_reachable sample_chain_reachable)
    as (Hne & Hhead & _ & Hprefix & _).
  split; [exact Hne|]. split; [exact Hhead|exact Hprefix].
Defined.

(** Handing the genesis object itself to [add_block] at a difficulty that
    its digest does not meet mines that object where it sits: it is entry 0
    and the new tail at once, with nonce 6 (class defined at 08:30:06). *)
Example resubmitted_genesis_is_mined_in_place :
  add_block 6 0%nat (set_difficulty 1 (setup (define_Block 1699000206)))
  = Returns (mkState {[ 0%nat := set_nonce (genesis (define_Block 1699000206)) 6 ]}
                     (mkPyChain [0%nat; 0%nat] 1)).
Proof. vm_compute. reflexivity. Qed.

(** ** The timestamp of a block *)

(** C7. The default of [timestamp] is computed when the [class] statement
    runs, at [utcnow]; the constructor reads no clock. Every block
    constructed without a timestamp argument carries the clock string of
    the class definition, so two of them carry the same string whenever
    they are constructed. With the class defined at 08:30:05, a block
    constructed ten seconds later carries 08:30:05 and not 08:30:15. *)
Theorem default_timestamp_is_class_definition_time
    (utcnow : Z) (r1 r2 : record_value) (c1 c2 : Z)
    (p1 p2 : option string) (n1 n2 : option Z) :
  timestamp (Block_init (define_Block utcnow) r1 c1 p1 None n1) = strftime_HMS utcnow ∧
  timestamp (Block_init (define_Block utcnow) r1 c1 p1 None n1)
  = timestamp (Block_init (define_Block utcnow) r2 c2 p2 None n2) ∧
  timestamp (Block_init (define_Block 1699000205)
               (Transaction (mkRecord "c" "d" (AmountText "20"))) seed
               (Some "0"%string) None None)
  = "08:30:05"%string ∧
  strftime_HMS (1699000205 + 10) = "08:30:15"%string.
Proof.
  split; [|split; [|split]].
  - unfold Block_init, define_Block. cbn [timestamp default_timestamp default].
    reflexivity.
  - unfold Block_init. cbn [timestamp default]. reflexivity.
  - vm_compute. reflexivity.
  - vm_compute. reflexivity.
Qed.

(** ** The digest input *)

Lemma append_assoc (s1 s2 s3 : string) :
  ((s1 ++ s2) ++ s3 = s1 ++ (s2 ++ s3))%string.
Proof.
  induction s1 as [|a s1 IH]; [reflexivity|].
  change (String a ((s1 ++ s2) ++ s3) = String a (s1 ++ (s2 ++ s3)))%string.
  f_equal. exact IH.
Qed.

(** The updates of the hash object amount to one concatenation. *)
Lemma hash_input_concat (b : Block) :
  hash_input b
  = (str_record (record b) ++ str_int (creator_id b) ++ timestamp b
     ++ prev_hash b ++ str_int (nonce b))%string.
Proof.
  unfold hash_input, sha_update, sha_new.
  change (EmptyString ++ str_record (record b))%string with (str_record (record b)).
  rewrite !append_assoc. reflexivity.
Qed.

(** C10. The bytes fed to the digest are the texts of record, creator_id,
    timestamp, prev_hash and nonce put end to end with nothing between
    them, and different blocks can feed the same bytes: creator_id 12 with
    timestamp 3:44:55 and creator_id 1 with timestamp 23:44:55, all else
    equal, are different blocks with the same input and the same digest. *)
Theorem hash_input_is_not_injective (r : record_value) (p : string) (n : Z) :
  (∀ b, hash_input b
        = (str_record (record b) ++ str_int (creator_id b) ++ timestamp b
           ++ prev_hash b ++ str_int (nonce b))%string) ∧
  mkBlock r 12 p "3:44:55" n ≠ mkBlock r 1 p "23:44:55" n ∧
  hash_input (mkBlock r 12 p "3:44:55" n) = hash_input (mkBlock r 1 p "23:44:55" n) ∧
  hash_block (mkBlock r 12 p "3:44:55" n) = hash_block (mkBlock r 1 p "23:44:55" n).
Proof.
  assert (Hin : hash_input (mkBlock r 12 p "3:44:55" n)
                = hash_input (mkBlock r 1 p "23:44:55" n)).
  { rewrite !hash_input_concat. cbn [record creator_id timestamp prev_hash nonce].
    reflexivity. }
  split; [|split; [|split]].
  - exact hash_input_concat.
  - intros Heq. discriminate Heq.
  - exact Hin.
  - unfold hash_block. rewrite Hin. reflexivity.
Qed.

(** * Further properties of the operations *)

(** ** More on the search *)

(** X1. A digest has 64 characters, so no digest starts with 65 zeros. With
    a difficulty above 64 no nonce wins, and [proof_of_work], like the
    [add_block] that calls it, never returns: when the product
    ['0' * self.difficulty] gives its text, the loop is still searching
    whatever fuel it is given, and when the difficulty is above the
    greatest [Py_ssize_t] the product raises OverflowError before the loop
    is entered. *)
Theorem proof_of_work_difficulty_above_64
    (fuel : nat) (block : loc) (s : state) (b : Block) :
  (64 < difficulty (pychain s))%Z →
  objects s !! block = Some b →
  String.length (hash_block b) = 64%nat ∧
  (∀ n, startswith (hash_block (set_nonce b n))
                   (zeros (difficulty (pychain s))) = false) ∧
  (∀ num_of_zeros,
     str_mul "0" (difficulty (pychain s)) = Returns num_of_zeros →
     proof_of_work_while fuel num_of_zeros block (hash_block b) (objects s)
     = OutOfFuel) ∧
  (∀ r, proof_of_work fuel block s ≠ Returns r) ∧
  (∀ s', add_block fuel block s ≠ Returns s') ∧
  ((PY_SSIZE_T_MAX < difficulty (pychain s))%Z →
   proof_of_work fuel block s = Raises OverflowError ∧
   add_block fuel block s = Raises OverflowError).
Proof.
  intros Hd Hb.
  assert (Hnone : ∀ n, startswith (hash_block (set_nonce b n))
                                  (zeros (difficulty (pychain s))) = false)
    by (intros n; apply startswith_too_many_zeros; exact Hd).
  split; [apply length_hash_block|]. split; [exact Hnone|].
  split; [|split; [|split]].
  - intros z Hz. unfold str_mul in Hz.
    destruct (fits_ssize_t (difficulty (pychain s))); [|discriminate Hz].
    injection Hz as <-. apply (proof_of_work_while_runs _ block fuel b); [exact Hb|].
    intros i _. apply Hnone.
  - intros r H.
    destruct (proof_of_work_inv _ _ _ _ H) as (b0 & res & Hb0 & _ & Hloop & _).
    rewrite Hb in Hb0. injection Hb0 as <-.
    rewrite (proof_of_work_while_runs _ block fuel b) in Hloop;
      [discriminate Hloop|exact Hb|].
    intros i _. apply Hnone.
  - intros s' H.
    destruct (add_block_mined _ _ _ _ H) as (b0 & k & _ & _ & _ & Hwins & _).
    rewrite startswith_too_many_zeros in Hwins by exact Hd. discriminate Hwins.
  - intros Hmax.
    assert (Hpow : proof_of_work fuel block s = Raises OverflowError)
      by (apply (proof_of_work_overflow _ _ _ _ Hb); right; exact Hmax).
    split; [exact Hpow|]. unfold add_block. rewrite Hpow. reflexivity.
Qed.

Lemma proof_of_work_difficulty_above_64_witness :
  String.length (hash_block sample_candidate) = 64%nat ∧
  (∀ n, startswith (hash_block (set_nonce sample_candidate n))
          (zeros (difficulty (pychain (set_difficulty 65 sample_pending_state))))
        = false) ∧
  (∀ num_of_zeros,
     str_mul "0" (difficulty (pychain (set_difficulty 65 sample_pending_state)))
     = Returns num_of_zeros →
     proof_of_work_while 3 num_of_zeros 1%nat (hash_block sample_candidate)
       (objects (set_difficulty 65 sample_pending_state))
     = OutOfFuel) ∧
  (∀ r, proof_of_work 3 1%nat (set_difficulty 65 sample_pending_state) ≠ Returns r) ∧
  (∀ s', add_block 3 1%nat (set_difficulty 65 sample_pending_state) ≠ Returns s') ∧
  ((PY_SSIZE_T_MAX
    < difficulty (pychain (set_difficulty 65 sample_pending_state)))%Z →
   proof_of_work 3 1%nat (set_difficulty 65 sample_pending_state)
   = Raises OverflowError ∧
   add_block 3 1%nat (set_difficulty 65 sample_pending_state)
   = Raises OverflowError).
Proof.
  apply (proof_of_work_difficulty_above_64 3 1%nat
           (set_difficulty 65 sample_pending_state) sample_candidate).
  - vm_compute. reflexivity.
  - vm_compute. reflexivity.
Defined.

(** X2. When [proof_of_work] returns, the block as it is left has a digest
    that starts with the zeros of the difficulty, and a second call on it
    returns at once, with no iteration and no change to the state. *)
Theorem proof_of_work_twice
    (fuel : nat) (block : loc) (s : state) (r : loc) (s' : state) :
  proof_of_work fuel block s = Returns (r, s') →
  (∃ b', objects s' !! block = Some b' ∧
         startswith (hash_block b') (zeros (difficulty (pychain s'))) = true) ∧
  ∀ fuel', proof_of_work fuel' block s' = Returns (block, s').
Proof.
  intros H.
  destruct (proof_of_work_inv _ _ _ _ H) as (b & res & Hb & Hfits & Hloop & Hr).
  injection Hr as -> ->.
  destruct (proof_of_work_while_result _ _ _ _ _ _ Hb Hloop)
    as (k & _ & Hstore & _ & Hwins & _).
  cbn [objects pychain]. rewrite Hstore.
  assert (Hb' : <[block := set_nonce b (nonce b + Z.of_nat k)]> (objects s) !! block
                = Some (set_nonce b (nonce b + Z.of_nat k))) by apply lookup_insert_eq.
  split; [eauto|].
  intros fuel'.
  rewrite (proof_of_work_fits fuel' block
             (mkState (<[block := set_nonce b (nonce b + Z.of_nat k)]> (objects s))
                      (pychain s)) _ Hb' Hfits).
  cbn [objects pychain].
  rewrite proof_of_work_while_eq, Hwins. reflexivity.
Qed.

Lemma proof_of_work_twice_witness :
  (∃ b', objects sample_mined_state !! 1%nat = Some b' ∧
         startswith (hash_block b')
           (zeros (difficulty (pychain sample_mined_state))) = true) ∧
  ∀ fuel', proof_of_work fuel' 1%nat sample_mined_state
           = Returns (1%nat, sample_mined_state).
Proof.
  apply (proof_of_work_twice 5 1%nat sample_pending_state 1%nat sample_mined_state).
  vm_compute. reflexivity.
Defined.

(** X3. Lowering the difficulty never lengthens the search: when
    [proof_of_work] returns at some difficulty, it also returns, with the
    same fuel and from the same block, at any lower difficulty down to the
    least [Py_ssize_t], and the nonce it finds there is no greater. Lower
    than that, the call raises OverflowError. *)
Theorem lower_difficulty_needs_no_more_attempts
    (fuel : nat) (block : loc) (s : state) (b : Block) (d' : Z)
    (r : loc) (s' : state) (bm : Block) :
  objects s !! block = Some b →
  (d' ≤ difficulty (pychain s))%Z →
  proof_of_work fuel block s = Returns (r, s') →
  objects s' !! block = Some bm →
  ((PY_SSIZE_T_MIN ≤ d')%Z →
   ∃ s'' bm',
     proof_of_work fuel block (set_difficulty d' s) = Returns (block, s'') ∧
     objects s'' !! block = Some bm' ∧
     (nonce b ≤ nonce bm' ≤ nonce bm)%Z) ∧
  ((d' < PY_SSIZE_T_MIN)%Z →
   proof_of_work fuel block (set_difficulty d' s) = Raises OverflowError).
Proof.
  intros Hb Hd H Hbm.
  destruct (proof_of_work_inv _ _ _ _ H) as (b0 & res & Hb0 & Hfits & Hloop & Hr).
  rewrite Hb in Hb0. injection Hb0 as <-. injection Hr as -> ->.
  destruct (proof_of_work_while_result _ _ _ _ _ _ Hb Hloop)
    as (k & Hk & Hstore & _ & Hwins & _).
  cbn [objects] in Hbm. rewrite Hstore, lookup_insert_eq in Hbm.
  injection Hbm as <-.
  split.
  - intros Hmin.
    apply (startswith_lower_difficulty _ _ d' Hd) in Hwins.
    destruct (least_winning_nonce _ b (nonce b + Z.of_nat k) ltac:(lia) Hwins)
      as (k' & Hk' & Hwins' & Hlow').
    exists (mkState (<[block := set_nonce b (nonce b + Z.of_nat k')]> (objects s))
                    (pychain (set_difficulty d' s))),
           (set_nonce b (nonce b + Z.of_nat k')).
    split; [|split].
    + rewrite (proof_of_work_fits fuel block (set_difficulty d' s) b Hb)
        by (cbn [set_difficulty pychain difficulty]; lia).
      cbn [set_difficulty objects pychain difficulty].
      rewrite (proof_of_work_while_stops _ block k' fuel b (objects s) Hb
                 ltac:(lia) Hlow' Hwins').
      reflexivity.
    + cbn [objects]. apply lookup_insert_eq.
    + cbn [set_nonce nonce]. lia.
  - intros Hlow. apply (proof_of_work_overflow fuel block (set_difficulty d' s) b Hb).
    left. exact Hlow.
Qed.

Lemma lower_difficulty_needs_no_more_attempts_witness :
  ∃ s'' bm',
    proof_of_work 5 1%nat (set_difficulty 0 sample_pending_state)
    = Returns (1%nat, s'') ∧
    objects s'' !! 1%nat = Some bm' ∧
    (nonce sample_candidate ≤ nonce bm' ≤ nonce (set_nonce sample_candidate 3))%Z.
Proof.
  apply (lower_difficulty_needs_no_more_attempts 5 1%nat sample_pending_state
           sample_candidate 0 1%nat sample_mined_state).
  - vm_compute. reflexivity.
  - vm_compute. discriminate.
  - vm_compute. reflexivity.
  - vm_compute. reflexivity.
  - vm_compute. discriminate.
Defined.

(** ** Validation after changes to the chain *)

Lemma allocated_forallb (σ : gmap loc Block) (c : list loc) :
  (∀ l, l ∈ c → is_Some (σ !! l)) → forallb (allocated σ) c = true.
Proof.
  induction c as [|l c IH]; intros Hc; [reflexivity|].
  cbn [forallb]. apply andb_true_intro. split.
  - unfold allocated. destruct (Hc l (list_elem_of_here _ _)) as [b ->]. reflexivity.
  - apply IH. intros l' Hl'. apply Hc. apply list_elem_of_further. exact Hl'.
Qed.

(** On a chain of block objects that is not empty, [is_valid] returns, and
    returns [True] exactly on linked chains. *)
Lemma is_valid_linked (s : state) :
  closed s → chain (pychain s) ≠ [] →
  (∃ v, is_valid s = Returns v) ∧
  (is_valid s = Returns true ↔ ∀ i, linked (objects s) (chain (pychain s)) i).
Proof.
  unfold closed, is_valid. intros Hclosed Hne.
  destruct (chain (pychain s)) as [|first rest]; [congruence|].
  destruct (Hclosed first (list_elem_of_here _ _)) as [b0 Hb0].
  unfold deref. rewrite Hb0. cbn [mbind outcome_bind].
  apply is_valid_for_linked; [exact Hb0|].
  apply allocated_forallb. intros l Hl. apply Hclosed.
  apply list_elem_of_further. exact Hl.
Qed.

(** The loop over a list with one more entry: the result on the list, and
    then the comparison of the new entry with the digest of the tail. *)
Lemma is_valid_for_app_one (σ : gmap loc Block) (t : loc) (bt : Block) (rest : list loc) :
  ∀ (first : loc) (b0 : Block) (tail : loc) (tb : Block),
    σ !! first = Some b0 →
    last (first :: rest) = Some tail →
    σ !! tail = Some tb →
    σ !! t = Some bt →
    is_valid_for σ (hash_block b0) (rest ++ [t])
    = match is_valid_for σ (hash_block b0) rest with
      | Returns true => Returns (String.eqb (hash_block tb) (prev_hash bt))
      | o => o
      end.
Proof.
  induction rest as [|l rest IH]; intros first b0 tail tb Hb0 Hlast Htb Hbt.
  - cbn [last] in Hlast. injection Hlast as <-.
    rewrite Hb0 in Htb. injection Htb as <-.
    cbn [app]. rewrite is_valid_for_cons, Hbt, !is_valid_for_nil.
    destruct (String.eqb (hash_block b0) (prev_hash bt)); reflexivity.
  - cbn [app]. rewrite !is_valid_for_cons.
    destruct (σ !! l) as [b|] eqn:Hb; [|reflexivity].
    destruct (String.eqb (hash_block b0) (prev_hash b)); [|reflexivity].
    apply (IH l b tail tb); assumption.
Qed.

(** [is_valid] after [add_block] of a block that the chain did not hold. *)
Lemma is_valid_after_add_block
    (fuel : nat) (l : loc) (s s' : state) (b : Block) (tail : loc) (tb : Block) (v : bool) :
  l ∉ chain (pychain s) →
  last (chain (pychain s)) = Some tail →
  objects s !! tail = Some tb →
  objects s !! l = Some b →
  is_valid s = Returns v →
  add_block fuel l s = Returns s' →
  is_valid s' = Returns (v && String.eqb (hash_block tb) (prev_hash b)).
Proof.
  intros Hfresh Hlast Htb Hb Hvalid Hadd.
  destruct (add_block_returns _ _ _ _ Hadd) as (b1 & m & Hb1 & _ & ->).
  rewrite Hb in Hb1. injection Hb1 as <-.
  unfold is_valid, deref in Hvalid |- *. cbn [objects pychain chain].
  destruct (chain (pychain s)) as [|first rest] eqn:Hc; [discriminate|].
  destruct (objects s !! first) as [b0|] eqn:Hb0; [|discriminate].
  cbn [mbind outcome_bind] in Hvalid.
  assert (Hother : ∀ l', l' ∈ first :: rest →
                         <[l := set_nonce b m]> (objects s) !! l' = objects s !! l').
  { intros l' Hl'. apply lookup_insert_ne. intros ->. exact (Hfresh Hl'). }
  cbn [app]. rewrite (Hother first) by apply list_elem_of_here.
  rewrite Hb0. cbn [mbind outcome_bind].
  rewrite (is_valid_for_app_one _ l (set_nonce b m) rest first b0 tail tb).
  - rewrite (is_valid_for_agree (objects s)), Hvalid.
    + destruct v; reflexivity.
    + intros l' Hl'. apply Hother. apply list_elem_of_further. exact Hl'.
  - rewrite (Hother first) by apply list_elem_of_here. exact Hb0.
  - exact Hlast.
  - rewrite Hother; [exact Htb|]. apply last_Some_elem_of. exact Hlast.
  - apply lookup_insert_eq.
Qed.

(** X4. [add_block] does not look at prev_hash, [is_valid] does later: after
    [add_block] of a block that the chain did not hold, the chain validates
    exactly when it validated before and the prev_hash of the new block is
    the digest of the old tail. A candidate whose prev_hash has not the 64
    characters of a digest, as the default '0' of the constructor, leaves a
    chain that does not validate; and a chain that did not validate is not
    repaired by what is appended. *)
Theorem add_block_then_is_valid
    (fuel : nat) (l : loc) (s s' : state) (b : Block) (tail : loc) (tb : Block) (v : bool) :
  l ∉ chain (pychain s) →
  last (chain (pychain s)) = Some tail →
  objects s !! tail = Some tb →
  objects s !! l = Some b →
  is_valid s = Returns v →
  add_block fuel l s = Returns s' →
  is_valid s' = Returns (v && String.eqb (hash_block tb) (prev_hash b)) ∧
  (String.length (prev_hash b) ≠ 64%nat → is_valid s' = Returns false) ∧
  (v = false → is_valid s' = Returns false).
Proof.
  intros Hfresh Hlast Htb Hb Hvalid Hadd.
  pose proof (is_valid_after_add_block fuel l s s' b tail tb v
                Hfresh Hlast Htb Hb Hvalid Hadd) as Hv.
  split; [exact Hv|]. split.
  - intros Hlen. rewrite Hv.
    destruct (String.eqb (hash_block tb) (prev_hash b)) eqn:Heq.
    + apply String.eqb_eq in Heq. rewrite <- Heq, length_hash_block in Hlen.
      congruence.
    + rewrite andb_false_r. reflexivity.
  - intros ->. exact Hv.
Qed.

Lemma add_block_then_is_valid_witness :
  is_valid sample_unlinked_chain
  = Returns (true && String.eqb (hash_block (genesis sample_class))
                                (prev_hash sample_unlinked_candidate)) ∧
  is_valid sample_unlinked_chain = Returns false.
Proof.
  destruct (add_block_then_is_valid 0 1%nat sample_unlinked_pending
              sample_unlinked_chain sample_unlinked_candidate 0%nat
              (genesis sample_class) true) as (Heq & Hlen & _).
  - intros Hin. apply list_elem_of_singleton in Hin. discriminate Hin.
  - reflexivity.
  - vm_compute. reflexivity.
  - vm_compute. reflexivity.
  - vm_compute. reflexivity.
  - vm_compute. reflexivity.
  - split; [exact Heq|]. apply Hlen. intros H. vm_compute in H. discriminate H.
Defined.

(** Two states with the same chain list and the same blocks in it get the
    same result. *)
Lemma is_valid_agree (s s' : state) :
  chain (pychain s') = chain (pychain s) →
  (∀ l, l ∈ chain (pychain s) → objects s' !! l = objects s !! l) →
  is_valid s' = is_valid s.
Proof.
  intros Hc Hobjects. unfold is_valid, deref. rewrite Hc.
  destruct (chain (pychain s)) as [|first rest]; [reflexivity|].
  rewrite (Hobjects first) by apply list_elem_of_here.
  destruct (objects s !! first) as [b0|]; [|reflexivity].
  cbn [mbind outcome_bind]. apply is_valid_for_agree.
  intros l Hl. apply Hobjects. apply list_elem_of_further. exact Hl.
Qed.

(** What the interface keeps: the entries of the chain list are block
    objects, no object is in the list twice, and the chain validates. *)
Lemma mined_invariant (s : state) :
  mined s → closed s ∧ NoDup (chain (pychain s)) ∧ is_valid s = Returns true.
Proof.
  induction 1 as [cls | s d _ IH
                 | s tail tb rec cid ts n0 fuel s' _ (Hclosed & Hnodup & Hvalid)
                     Hlast Htb Hadd].
  - unfold setup, new, closed, is_valid, deref. cbn [fst snd objects pychain chain].
    split; [|split].
    + intros l Hl. apply list_elem_of_singleton in Hl as ->.
      rewrite lookup_insert_eq. eauto.
    + apply NoDup_singleton.
    + rewrite lookup_insert_eq. reflexivity.
  - exact IH.
  - unfold new in Hadd. cbn [fst snd] in Hadd.
    set (l := fresh (dom (objects s))) in *.
    set (cand := mkBlock rec cid (hash_block tb) ts n0) in *.
    assert (Hfresh : l ∉ chain (pychain s)).
    { intros Hl. destruct (Hclosed l Hl) as [x Hx].
      unfold l in Hx. rewrite fresh_not_allocated in Hx. discriminate. }
    assert (Hother : ∀ l', l' ∈ chain (pychain s) →
                           <[l := cand]> (objects s) !! l' = objects s !! l').
    { intros l' Hl'. apply lookup_insert_ne. intros ->. exact (Hfresh Hl'). }
    set (s1 := mkState (<[l := cand]> (objects s)) (pychain s)) in *.
    assert (Hv : is_valid s' = Returns (true && String.eqb (hash_block tb) (prev_hash cand))).
    { apply (is_valid_after_add_block fuel l s1 s' cand tail tb true).
      - exact Hfresh.
      - exact Hlast.
      - cbn [s1 objects]. rewrite Hother; [exact Htb|].
        apply last_Some_elem_of. exact Hlast.
      - cbn [s1 objects]. apply lookup_insert_eq.
      - rewrite <- Hvalid. apply is_valid_agree; [reflexivity|exact Hother].
      - exact Hadd. }
    cbn [prev_hash cand] in Hv. rewrite String.eqb_refl in Hv.
    destruct (add_block_returns _ _ _ _ Hadd) as (b & m & _ & _ & ->).
    subst s1. cbn [objects pychain chain] in *.
    split; [|split; [|exact Hv]].
    + intros l' Hl'. cbn [objects pychain chain] in Hl' |- *.
      apply elem_of_app in Hl' as [Hl'|Hl'].
      * rewrite lookup_insert_ne by (intros ->; exact (Hfresh Hl')).
        rewrite Hother by exact Hl'. apply Hclosed, Hl'.
      * apply list_elem_of_singleton in Hl' as ->. rewrite lookup_insert_eq. eauto.
    + apply NoDup_app. split; [exact Hnodup|]. split; [|apply NoDup_singleton].
      intros l' Hl' Hin. apply list_elem_of_singleton in Hin as ->. exact (Hfresh Hl').
Qed.

(** X5. In every chain that the interface builds, the newest block can be
    rewritten at will, prev_hash apart (the record with its sender,
    receiver and amount, the creator_id, the timestamp, the nonce), and
    [is_valid] still returns [True]: nothing in the chain stores the digest
    of the last block. *)
Theorem newest_block_can_be_rewritten
    (s : state) (init : list loc) (t : loc) (b b' : Block) :
  mined s →
  chain (pychain s) = init ++ [t] →
  objects s !! t = Some b →
  prev_hash b' = prev_hash b →
  is_valid (mkState (<[t := b']> (objects s)) (pychain s)) = Returns true.
Proof.
  intros Hs Hc Hb Hprev.
  destruct (mined_invariant s Hs) as (_ & Hnodup & Hvalid).
  rewrite <- Hvalid. apply (is_valid_ignores_tail s _ init t Hc); cbn [objects pychain].
  - exact Hc.
  - intros l Hl. apply lookup_insert_ne. intros Heq.
    rewrite Hc in Hnodup. apply NoDup_app in Hnodup as (_ & Hdisjoint & _).
    apply (Hdisjoint l Hl). rewrite <- Heq. apply list_elem_of_here.
  - rewrite lookup_insert_eq, Hb. cbn. congruence.
Qed.

Lemma newest_block_can_be_rewritten_witness :
  is_valid (mkState (<[1%nat := mkBlock (Transaction (mkRecord "a" "b" (AmountText "99")))
                                        seed (prev_hash sample_candidate) "08:30:05" 3]>
                       (objects sample_chain_state))
                    (pychain sample_chain_state))
  = Returns true.
Proof.
  apply (newest_block_can_be_rewritten sample_chain_state [0%nat] 1%nat
           (set_nonce sample_candidate 3)).
  - exact sample_chain_mined.
  - reflexivity.
  - vm_compute. reflexivity.
  - reflexivity.
Defined.

(** X6. In a valid chain of distinct block objects, overwriting a block that
    has a successor, so that its digest is no longer the same, makes
    [is_valid] return [False]. *)
Theorem rewritten_inner_block_is_detected
    (s : state) (i : nat) (l l' : loc) (b b' : Block) :
  closed s →
  NoDup (chain (pychain s)) →
  is_valid s = Returns true →
  chain (pychain s) !! i = Some l →
  chain (pychain s) !! S i = Some l' →
  objects s !! l = Some b →
  hash_block b' ≠ hash_block b →
  is_valid (mkState (<[l := b']> (objects s)) (pychain s)) = Returns false.
Proof.
  intros Hclosed Hnodup Hvalid Hl Hl' Hb Hhash.
  assert (Hne : chain (pychain s) ≠ []) by (intros Hnil; rewrite Hnil in Hl; discriminate).
  destruct (is_valid_linked s Hclosed Hne) as [_ Hiff].
  pose proof (proj1 Hiff Hvalid i) as Hlinked.
  assert (Hll' : l ≠ l').
  { intros <-. pose proof (NoDup_lookup _ _ _ _ Hnodup Hl Hl'). lia. }
  destruct (Hclosed l' (list_elem_of_lookup_2 _ _ _ Hl')) as [b1 Hb1].
  assert (Hprev : prev_hash b1 = hash_block b).
  { apply Hlinked; unfold block_at; [rewrite Hl|rewrite Hl']; assumption. }
  set (s1 := mkState (<[l := b']> (objects s)) (pychain s)).
  assert (Hclosed1 : closed s1).
  { intros l0 Hl0. cbn [s1 objects pychain] in *.
    destruct (decide (l = l0)) as [<-|Hn].
    - rewrite lookup_insert_eq. eauto.
    - rewrite lookup_insert_ne by exact Hn. apply Hclosed, Hl0. }
  destruct (is_valid_linked s1 Hclosed1 Hne) as [[v Hv] Hiff1].
  rewrite Hv. destruct v; [|reflexivity].
  exfalso. apply Hhash. rewrite <- Hprev. symmetry.
  apply (proj1 Hiff1 Hv i b' b1); unfold block_at; cbn [s1 objects pychain].
  - rewrite Hl. apply lookup_insert_eq.
  - rewrite Hl'. cbn. rewrite lookup_insert_ne by exact Hll'. exact Hb1.
Qed.

Lemma rewritten_inner_block_is_detected_witness :
  is_valid sample_tampered_state = Returns false.
Proof.
  destruct (mined_invariant sample_chain_state sample_chain_mined)
    as (Hclosed & Hnodup & Hvalid).
  apply (rewritten_inner_block_is_detected sample_chain_state 0 0%nat 1%nat
           (genesis sample_class) sample_tampered_genesis Hclosed Hnodup Hvalid).
  - reflexivity.
  - reflexivity.
  - vm_compute. reflexivity.
  - intros H. apply String.eqb_eq in H. vm_compute in H. discriminate H.
Defined.

(** ** Runs of the script *)

(** What [add_block] leaves behind when it returns, with the reason why the
    search stopped. *)
Lemma add_block_result (fuel : nat) (l : loc) (s s' : state) :
  add_block fuel l s = Returns s' →
  ∃ b bm,
    objects s !! l = Some b ∧ same_but_nonce b bm ∧
    startswith (hash_block bm) (zeros (difficulty (pychain s))) = true ∧
    s' = mkState (<[l := bm]> (objects s))
                 (mkPyChain (chain (pychain s) ++ [l]) (difficulty (pychain s))).
Proof.
  intros H.
  destruct (add_block_mined _ _ _ _ H) as (b & k & Hb & _ & _ & Hwins & _ & ->).
  exists b, (set_nonce b (nonce b + Z.of_nat k)).
  split; [exact Hb|]. split; [unfold same_but_nonce; cbn; tauto|].
  split; [exact Hwins|reflexivity].
Qed.

(** What the Add Block handler leaves behind when it returns: one new
    object, appended; it carries the entries, the seed, the timestamp
    default of the class and the digest of the old tail, and its digest
    meets the difficulty that the chain had. *)
Lemma add_block_handler_result (fuel : nat) (cls : Block_class)
    (sender_data receiver_data amount_data : string) (s s' : state) :
  add_block_handler fuel cls sender_data receiver_data amount_data s = Returns s' →
  ∃ tail tb bm,
    last (chain (pychain s)) = Some tail ∧ objects s !! tail = Some tb ∧
    record bm = Transaction (mkRecord sender_data receiver_data (AmountText amount_data)) ∧
    creator_id bm = seed ∧ prev_hash bm = hash_block tb ∧
    timestamp bm = default_timestamp cls ∧
    startswith (hash_block bm) (zeros (difficulty (pychain s))) = true ∧
    s' = mkState (<[fresh (dom (objects s)) := bm]> (objects s))
                 (mkPyChain (chain (pychain s) ++ [fresh (dom (objects s))])
                            (difficulty (pychain s))).
Proof.
  unfold add_block_handler, deref. intros H.
  destruct (last (chain (pychain s))) as [tail|] eqn:Hlast;
    cbn [mbind outcome_bind] in H; [|discriminate].
  destruct (objects s !! tail) as [tb|] eqn:Htb;
    cbn [mbind outcome_bind] in H; [|discriminate].
  unfold new in H. cbn [fst snd] in H.
  destruct (add_block_result _ _ _ _ H) as (b & bm & Hb & Hsame & Hwins & ->).
  cbn [objects pychain] in Hb, Hwins |- *.
  rewrite lookup_insert_eq in Hb. injection Hb as <-.
  destruct Hsame as (Hrec & Hcid & Hprev & Hts).
  exists tail, tb, bm. rewrite insert_insert_eq.
  repeat (split; [assumption || reflexivity|]). reflexivity.
Qed.

(** A run of the script keeps the chain among those of [mined], and its
    Validate Chain button gets [True]. *)
Lemma script_run_mined (fuel : nat) (utcnow : Z) (w : widgets) (cache : option state)
    (s' : state) (banner : option bool) :
  (∀ s, cache = Some s → mined s) →
  script_run fuel utcnow w cache = Returns (s', banner) →
  mined s' ∧ banner = (if validate_button w then Some true else None).
Proof.
  intros Hcache. unfold script_run.
  set (s0 := match cache with Some s => s | None => setup (define_Block utcnow) end).
  assert (Hs0 : mined s0).
  { unfold s0. destruct cache as [s|]; [apply Hcache; reflexivity|apply mined_setup]. }
  assert (Hs1 : ∀ s1,
             (if add_block_button w
              then add_block_handler fuel (define_Block utcnow) (sender_input w)
                     (receiver_input w) (amount_input w) s0
              else Returns s0) = Returns s1 → mined s1).
  { destruct (add_block_button w); intros s1 H1.
    - exact (add_block_handler_mined _ _ _ _ _ _ _ Hs0 H1).
    - injection H1 as <-. exact Hs0. }
  destruct (if add_block_button w then _ else _) as [s1| | |];
    cbn [mbind outcome_bind]; try discriminate.
  pose proof (mined_difficulty _ (difficulty_slider w) (Hs1 s1 eq_refl)) as Hs2.
  destruct (validate_button w).
  - destruct (mined_invariant _ Hs2) as (_ & _ & ->). cbn [mbind outcome_bind].
    intros H. injection H as <- <-. split; [exact Hs2|reflexivity].
  - cbn [mbind outcome_bind]. intros H. injection H as <- <-.
    split; [exact Hs2|reflexivity].
Qed.

Lemma app_state_mined (s : state) : app_state s → mined s.
Proof.
  induction 1 as [fuel utcnow w s banner _ Hrun
                 | s fuel utcnow w s' banner _ IH _ Hrun].
  - apply (script_run_mined _ _ _ None _ _ ltac:(discriminate) Hrun).
  - refine (proj1 (script_run_mined _ _ _ (Some s) _ _ _ Hrun)).
    intros s0 H0. injection H0 as <-. exact IH.
Qed.

Lemma slider_sample_add : slider_in_range sample_add.
Proof. unfold slider_in_range. cbn. lia. Defined.

Lemma slider_sample_idle : slider_in_range sample_idle.
Proof. unfold slider_in_range. cbn. lia. Defined.

(** Two runs: the first with nothing pressed, the second with Add Block
    pressed. *)
Lemma sample_chain_app_state : app_state sample_chain_state.
Proof.
  apply (app_next sample_genesis_state 5 1699000205 sample_add
           sample_chain_state None).
  - apply (app_first 0 1699000205 sample_idle sample_genesis_state None).
    + exact slider_sample_idle.
    + vm_compute. reflexivity.
  - exact slider_sample_add.
  - vm_compute. reflexivity.
Defined.

(** X8. Whatever runs of the script came before, with their inputs, button
    presses and slider positions, the Validate Chain button gets [True] from
    [is_valid] and shows the success banner, never the warning: the
    interface has no way to build a chain that does not validate. *)
Theorem validate_button_never_warns
    (fuel : nat) (utcnow : Z) (w : widgets) (cache : option state)
    (s' : state) (banner : option bool) :
  (∀ s, cache = Some s → app_state s) →
  slider_in_range w →
  script_run fuel utcnow w cache = Returns (s', banner) →
  validate_button w = true →
  banner = Some true ∧ is_valid s' = Returns true ∧ app_state s'.
Proof.
  intros Hcache Hslider Hrun Hpressed.
  destruct (script_run_mined fuel utcnow w cache s' banner) as [Hmined Hbanner].
  - intros s Hs. apply app_state_mined, Hcache, Hs.
  - exact Hrun.
  - rewrite Hpressed in Hbanner. split; [exact Hbanner|].
    split; [apply (mined_invariant s' Hmined)|].
    destruct cache as [s|].
    + exact (app_next s fuel utcnow w s' banner (Hcache s eq_refl) Hslider Hrun).
    + exact (app_first fuel utcnow w s' banner Hslider Hrun).
Qed.

Lemma validate_button_never_warns_witness :
  Some true = Some true ∧
  is_valid sample_chain_state = Returns true ∧ app_state sample_chain_state.
Proof.
  apply (validate_button_never_warns 0 1699000300 sample_validate
           (Some sample_chain_state) sample_chain_state (Some true)).
  - intros s Hs. injection Hs as <-. exact sample_chain_app_state.
  - unfold slider_in_range. cbn. lia.
  - vm_compute. reflexivity.
  - reflexivity.
Defined.

(** X9. In a run of the script the Add Block handler comes before the
    assignment of the slider value. The block that a run appends is mined at
    the difficulty that the chain had when the run started (the one the run
    before wrote, or the default 4 right after [setup()]), not at the slider
    value of this run, which is the difficulty only once the run is over.
    The block carries the three entries as texts, creator_id 42, the digest
    of the old tail and the timestamp of the class statement of this run. A
    run without the button leaves list and blocks alone. *)
Theorem add_block_mines_at_the_difficulty_of_the_run_before
    (fuel : nat) (utcnow : Z) (w : widgets) (cache : option state)
    (s' : state) (banner : option bool) :
  script_run fuel utcnow w cache = Returns (s', banner) →
  difficulty (pychain s') = difficulty_slider w ∧
  (add_block_button w = false →
   chain (pychain s') = chain (pychain (run_start utcnow cache)) ∧
   objects s' = objects (run_start utcnow cache)) ∧
  (add_block_button w = true →
   ∃ l tail tb bm,
     chain (pychain s') = chain (pychain (run_start utcnow cache)) ++ [l] ∧
     last (chain (pychain (run_start utcnow cache))) = Some tail ∧
     objects (run_start utcnow cache) !! tail = Some tb ∧
     objects (run_start utcnow cache) !! l = None ∧
     objects s' = <[l := bm]> (objects (run_start utcnow cache)) ∧
     record bm = Transaction (mkRecord (sender_input w) (receiver_input w)
                                       (AmountText (amount_input w))) ∧
     creator_id bm = 42%Z ∧
     prev_hash bm = hash_block tb ∧
     timestamp bm = strftime_HMS utcnow ∧
     startswith (hash_block bm)
       (zeros (difficulty (pychain (run_start utcnow cache)))) = true).
Proof.
  unfold script_run. fold (run_start utcnow cache).
  set (s0 := run_start utcnow cache).
  destruct (add_block_button w).
  - destruct (add_block_handler fuel (define_Block utcnow) (sender_input w)
                (receiver_input w) (amount_input w) s0) as [s1| | |] eqn:Hadd;
      cbn [mbind outcome_bind]; try discriminate.
    destruct (add_block_handler_result _ _ _ _ _ _ _ Hadd)
      as (tail & tb & bm & Hlast & Htb & Hrec & Hcid & Hprev & Hts & Hwins & ->).
    intros H.
    assert (Hs' : s' = set_difficulty (difficulty_slider w)
                         (mkState (<[fresh (dom (objects s0)) := bm]> (objects s0))
                                  (mkPyChain (chain (pychain s0) ++ [fresh (dom (objects s0))])
                                             (difficulty (pychain s0))))).
    { destruct (validate_button w); cbn [mbind outcome_bind] in H.
      - destruct (is_valid _); cbn [mbind outcome_bind] in H; try discriminate.
        injection H as <- _. reflexivity.
      - injection H as <- _. reflexivity. }
    rewrite Hs'. cbn [set_difficulty objects pychain chain difficulty].
    split; [reflexivity|]. split; [discriminate|]. intros _.
    exists (fresh (dom (objects s0))), tail, tb, bm.
    split; [reflexivity|]. split; [exact Hlast|]. split; [exact Htb|].
    split; [apply fresh_not_allocated|]. split; [reflexivity|].
    split; [exact Hrec|]. split; [exact Hcid|]. split; [exact Hprev|].
    split; [exact Hts|exact Hwins].
  - cbn [mbind outcome_bind]. intros H.
    assert (Hs' : s' = set_difficulty (difficulty_slider w) s0).
    { destruct (validate_button w); cbn [mbind outcome_bind] in H.
      - destruct (is_valid _); cbn [mbind outcome_bind] in H; try discriminate.
        injection H as <- _. reflexivity.
      - injection H as <- _. reflexivity. }
    rewrite Hs'. cbn [set_difficulty objects pychain chain difficulty].
    split; [reflexivity|]. split; [intros _; split; reflexivity|discriminate].
Qed.

Lemma add_block_mines_at_the_difficulty_of_the_run_before_witness :
  difficulty (pychain (set_difficulty 6 sample_chain_state)) = 6%Z ∧
  (true = false →
   chain (pychain (set_difficulty 6 sample_chain_state))
   = chain (pychain sample_genesis_state) ∧
   objects (set_difficulty 6 sample_chain_state) = objects sample_genesis_state) ∧
  (true = true →
   ∃ l tail tb bm,
     chain (pychain (set_difficulty 6 sample_chain_state))
     = chain (pychain sample_genesis_state) ++ [l] ∧
     last (chain (pychain sample_genesis_state)) = Some tail ∧
     objects sample_genesis_state !! tail = Some tb ∧
     objects sample_genesis_state !! l = None ∧
     objects (set_difficulty 6 sample_chain_state)
     = <[l := bm]> (objects sample_genesis_state) ∧
     record bm = Transaction (mkRecord "a" "b" (AmountText "10")) ∧
     creator_id bm = 42%Z ∧
     prev_hash bm = hash_block tb ∧
     timestamp bm = strftime_HMS 1699000205 ∧
     startswith (hash_block bm)
       (zeros (difficulty (pychain sample_genesis_state))) = true).
Proof.
  apply (add_block_mines_at_the_difficulty_of_the_run_before 5 1699000205
           (mkWidgets "a" "b" "10" true 6 false) (Some sample_genesis_state)
           (set_difficulty 6 sample_chain_state) None).
  vm_compute. reflexivity.
Defined.

(** ** Texts *)

Section Texts.

Local Open Scope string_scope.

Lemma append_nil (s : string) : "" ++ s = s.
Proof. reflexivity. Qed.

Lemma append_cons (a : ascii) (s1 s2 : string) :
  String a s1 ++ s2 = String a (s1 ++ s2).
Proof. reflexivity. Qed.

Lemma length_append (s1 s2 : string) :
  String.length (s1 ++ s2) = (String.length s1 + String.length s2)%nat.
Proof.
  induction s1 as [|a s1 IH]; [reflexivity|].
  rewrite append_cons. cbn [String.length]. rewrite IH. reflexivity.
Qed.

Lemma append_cancel_l (s a b : string) : s ++ a = s ++ b → a = b.
Proof.
  induction s as [|c s IH]; intros H; [exact H|].
  rewrite !append_cons in H. injection H as H. exact (IH H).
Qed.

(** Two texts of the same length at the head of equal texts are equal, and
    so is what follows them. *)
Lemma append_same_length (a b x y : string) :
  String.length a = String.length b → a ++ x = b ++ y → a = b ∧ x = y.
Proof.
  revert b. induction a as [|c a IH]; intros [|d b] Hlen H;
    cbn [String.length] in Hlen; try discriminate.
  - split; [reflexivity|exact H].
  - rewrite !append_cons in H. injection H as -> H.
    destruct (IH b ltac:(lia) H) as [-> ->]. split; reflexivity.
Qed.

Lemma append_cancel_r (a b s : string) : a ++ s = b ++ s → a = b.
Proof.
  intros H. apply (append_same_length a b s s); [|exact H].
  apply (f_equal String.length) in H. rewrite !length_append in H. lia.
Qed.

(** [str] of an [int] tells the integers apart. *)
Lemma str_int_inj (n m : Z) : str_int n = str_int m → n = m.
Proof.
  unfold str_int. intros H. apply DecimalZ.to_int_inj.
  assert (Hisi : ∀ z, NilZero.int_of_string (NilZero.string_of_int (Z.to_int z))
                      = Some (Z.to_int z)).
  { intros z. apply NilZero.isi; destruct z; cbn [Z.to_int]; try discriminate;
      intros H0; injection H0 as H0; exact (Unsigned.to_uint_nonnil _ H0). }
  pose proof (Hisi n) as Hn. rewrite H, Hisi in Hn. injection Hn as Hn.
  symmetry. exact Hn.
Qed.

Lemma length_two_digits (n : Z) :
  (0 ≤ n < 60)%Z → String.length (two_digits n) = 2%nat.
Proof.
  intros Hn.
  assert (Hall : forallb (fun k => Nat.eqb (String.length (two_digits k)) 2)
                         (seqZ 0 60) = true) by (vm_compute; reflexivity).
  rewrite forallb_forall in Hall.
  apply Nat.eqb_eq. apply Hall. apply list_elem_of_In. apply elem_of_seqZ. lia.
Qed.

(** The clock string has 8 characters at any time. *)
Lemma length_strftime_HMS (t : Z) : String.length (strftime_HMS t) = 8%nat.
Proof.
  unfold strftime_HMS. rewrite !length_append.
  rewrite !length_two_digits; [reflexivity| | |].
  - apply Z.mod_pos_bound. lia.
  - apply Z.mod_pos_bound. lia.
  - pose proof (Z.mod_pos_bound (t / 3600) 24 ltac:(lia)). lia.
Qed.

End Texts.

(** ** The chains of the interface *)

Lemma app_chain_setup (utcnow : Z) : app_chain (setup (define_Block utcnow)).
Proof.
  unfold app_chain, setup, new, closed. cbn [fst snd objects pychain chain difficulty].
  split; [|split; [lia|split]].
  - intros l Hl. apply list_elem_of_singleton in Hl as ->.
    rewrite lookup_insert_eq. eauto.
  - exists (fresh (dom (∅ : gmap loc Block))), (genesis (define_Block utcnow)).
    split; [reflexivity|]. split; [apply lookup_insert_eq|].
    unfold genesis_shape, genesis, Block_init, define_Block.
    cbn [record creator_id prev_hash timestamp nonce default default_timestamp].
    repeat split. apply length_strftime_HMS.
  - intros i l b Hl. discriminate Hl.
Qed.

Lemma app_chain_set_difficulty (d : Z) (s : state) :
  (1 ≤ d ≤ 7)%Z → app_chain s → app_chain (set_difficulty d s).
Proof.
  intros Hd (Hclosed & _ & Hgenesis & Hblocks).
  split; [exact Hclosed|]. split; [exact Hd|]. split; [exact Hgenesis|exact Hblocks].
Qed.

Lemma app_chain_handler (fuel : nat) (utcnow : Z)
    (sender_data receiver_data amount_data : string) (s s' : state) :
  app_chain s →
  add_block_handler fuel (define_Block utcnow) sender_data receiver_data amount_data s
  = Returns s' →
  app_chain s'.
Proof.
  intros (Hclosed & Hd & (g & bg & Hg & Hbg & Hshape) & Hblocks) Hadd.
  destruct (add_block_handler_result _ _ _ _ _ _ _ Hadd)
    as (tail & tb & bm & Hlast & Htb & Hrec & Hcid & Hprev & Hts & Hwins & ->).
  set (l := fresh (dom (objects s))) in *.
  assert (Hfresh : ∀ l', l' ∈ chain (pychain s) → l' ≠ l).
  { intros l' Hl' ->. destruct (Hclosed l Hl') as [x Hx].
    unfold l in Hx. rewrite fresh_not_allocated in Hx. discriminate. }
  assert (Hbm : interface_block bm).
  { split; [eauto|]. split; [exact Hcid|]. split; [|split].
    - rewrite Hts. apply length_strftime_HMS.
    - rewrite Hprev. apply length_hash_block.
    - apply (startswith_lower_difficulty _ _ 1 (proj1 Hd) Hwins). }
  unfold app_chain, closed. cbn [objects pychain chain difficulty].
  split; [|split; [exact Hd|split]].
  - intros l' Hl'. apply elem_of_app in Hl' as [Hl'|Hl'].
    + rewrite lookup_insert_ne by (apply not_eq_sym, Hfresh, Hl'). apply Hclosed, Hl'.
    + apply list_elem_of_singleton in Hl' as ->. rewrite lookup_insert_eq. eauto.
  - exists g, bg. split; [apply lookup_app_l_Some; exact Hg|]. split; [|exact Hshape].
    rewrite lookup_insert_ne; [exact Hbg|].
    apply not_eq_sym, Hfresh. exact (list_elem_of_lookup_2 _ _ _ Hg).
  - intros i l0 b Hl0 Hb. apply lookup_app_Some in Hl0 as [Hl0|[_ Hl0]].
    + rewrite lookup_insert_ne in Hb
        by (apply not_eq_sym, Hfresh; exact (list_elem_of_lookup_2 _ _ _ Hl0)).
      exact (Hblocks i l0 b Hl0 Hb).
    + apply list_lookup_singleton_Some in Hl0 as [_ <-].
      rewrite lookup_insert_eq in Hb. injection Hb as <-. exact Hbm.
Qed.

Lemma app_chain_run (fuel : nat) (utcnow : Z) (w : widgets) (cache : option state)
    (s' : state) (banner : option bool) :
  (∀ s, cache = Some s → app_chain s) →
  slider_in_range w →
  script_run fuel utcnow w cache = Returns (s', banner) →
  app_chain s'.
Proof.
  intros Hcache Hslider. unfold script_run.
  set (s0 := match cache with Some s => s | None => setup (define_Block utcnow) end).
  assert (Hs0 : app_chain s0).
  { unfold s0. destruct cache as [s|]; [apply Hcache; reflexivity|apply app_chain_setup]. }
  assert (Hs1 : ∀ s1,
             (if add_block_button w
              then add_block_handler fuel (define_Block utcnow) (sender_input w)
                     (receiver_input w) (amount_input w) s0
              else Returns s0) = Returns s1 → app_chain s1).
  { destruct (add_block_button w); intros s1 H1.
    - exact (app_chain_handler _ _ _ _ _ _ _ Hs0 H1).
    - injection H1 as <-. exact Hs0. }
  destruct (if add_block_button w then _ else _) as [s1| | |];
    cbn [mbind outcome_bind]; try discriminate.
  pose proof (app_chain_set_difficulty _ _ Hslider (Hs1 s1 eq_refl)) as Hs2.
  destruct (validate_button w); cbn [mbind outcome_bind].
  - destruct (is_valid _); cbn [mbind outcome_bind]; try discriminate.
    intros H. injection H as <- _. exact Hs2.
  - intros H. injection H as <- _. exact Hs2.
Qed.

(** X10. What the runs of the script keep. The difficulty is from 1 to 7.
    Entry 0 is a genesis block with the placeholder record, creator_id 0,
    prev_hash '0' and the nonce 0 of its construction: it is never mined.
    Every later entry is a block with a [Record] of three texts,
    creator_id 42, a clock string of 8 characters, a prev_hash of 64
    characters and a digest that starts with a zero: each appended block
    carries a proof of work, though [is_valid] never asks for it. *)
Theorem app_state_shape (s : state) :
  app_state s →
  (1 ≤ difficulty (pychain s) ≤ 7)%Z ∧
  (∃ g bg, chain (pychain s) !! 0%nat = Some g ∧ objects s !! g = Some bg ∧
           genesis_shape bg) ∧
  (∀ i l, chain (pychain s) !! S i = Some l →
          ∃ b, objects s !! l = Some b ∧ interface_block b).
Proof.
  intros Hs.
  assert (Hchain : app_chain s).
  { induction Hs as [fuel utcnow w s banner Hslider Hrun
                    | s fuel utcnow w s' banner _ IH Hslider Hrun].
    - apply (app_chain_run _ _ _ None _ _ ltac:(discriminate) Hslider Hrun).
    - refine (app_chain_run _ _ _ (Some s) _ _ _ Hslider Hrun).
      intros s0 H0. injection H0 as <-. exact IH. }
  destruct Hchain as (Hclosed & Hd & Hgenesis & Hblocks).
  split; [exact Hd|]. split; [exact Hgenesis|].
  intros i l Hl. destruct (Hclosed l (list_elem_of_lookup_2 _ _ _ Hl)) as [b Hb].
  exists b. split; [exact Hb|]. exact (Hblocks i l b Hl Hb).
Qed.

Lemma app_state_shape_witness :
  (1 ≤ difficulty (pychain sample_chain_state) ≤ 7)%Z ∧
  (∃ g bg, chain (pychain sample_chain_state) !! 0%nat = Some g ∧
           objects sample_chain_state !! g = Some bg ∧ genesis_shape bg) ∧
  (∀ i l, chain (pychain sample_chain_state) !! S i = Some l →
          ∃ b, objects sample_chain_state !! l = Some b ∧ interface_block b).
Proof. exact (app_state_shape sample_chain_state sample_chain_app_state). Defined.

(** ** What the hashed bytes tell apart *)

Section Reading.

Local Open Scope string_scope.

(** *** Characters and their bytes *)

Lemma byte_of_range (c : ascii) : (0 ≤ byte_of c < 256)%Z.
Proof.
  unfold byte_of. pose proof (N_ascii_bounded c). lia.
Qed.

Lemma char_of_byte_of (c : ascii) : char_of (byte_of c) = c.
Proof.
  unfold char_of, byte_of. rewrite N2Z.id. apply ascii_N_embedding.
Qed.

Lemma char_of_eq (c : ascii) (n : Z) : n = byte_of c → char_of n = c.
Proof. intros ->. apply char_of_byte_of. Qed.

Lemma continuation_S (k : nat) (acc : Z) (c : ascii) (rest : string) (cp : Z) :
  continuation (S k) acc (String c rest) = Some cp →
  (0x80 ≤ byte_of c < 0xC0)%Z ∧
  continuation k (acc * 64 + (byte_of c - 0x80)) rest = Some cp.
Proof.
  cbn [continuation].
  destruct ((0x80 <=? byte_of c)%Z && (byte_of c <? 0xC0)%Z) eqn:Hc; [|discriminate].
  apply andb_prop in Hc as [H1 H2]. apply Z.leb_le in H1. apply Z.ltb_lt in H2.
  intros H. split; [lia|exact H].
Qed.

(** The character at the head of a text is there in its UTF-8 form. *)
Lemma utf8_head_encode (s : string) (cp : Z) (n : nat) :
  utf8_head s = Some (cp, n) →
  (0 ≤ cp ≤ 0x10FFFF)%Z ∧
  String.length (utf8_encode cp) = n ∧
  ∃ rest, s = utf8_encode cp ++ rest.
Proof.
  destruct s as [|c0 s]; [discriminate|]. unfold utf8_head.
  pose proof (byte_of_range c0) as H0.
  destruct (byte_of c0 <? 0x80)%Z eqn:Hc0.
  { apply Z.ltb_lt in Hc0. intros H. injection H as <- <-.
    unfold utf8_encode. rewrite (proj2 (Z.ltb_lt _ _) Hc0).
    split; [lia|]. split; [reflexivity|]. exists s.
    rewrite append_cons, append_nil, char_of_byte_of. reflexivity. }
  apply Z.ltb_ge in Hc0.
  destruct ((0xC0 <=? byte_of c0)%Z && (byte_of c0 <? 0xE0)%Z) eqn:H2.
  { apply andb_prop in H2 as [Hl Hh]. apply Z.leb_le in Hl. apply Z.ltb_lt in Hh.
    destruct (continuation 1 (byte_of c0 - 0xC0) s) as [cp'|] eqn:Hk; [|discriminate].
    destruct s as [|c1 s]; [discriminate Hk|].
    apply continuation_S in Hk as [H1 Hk]. cbn [continuation] in Hk. injection Hk as <-.
    destruct (0x80 <=? _)%Z eqn:Hmin; [|discriminate]. apply Z.leb_le in Hmin.
    intros H. injection H as <- <-.
    unfold utf8_encode.
    rewrite (proj2 (Z.ltb_ge _ _)) by lia. rewrite (proj2 (Z.ltb_lt _ 0x800)) by lia.
    split; [lia|]. split; [reflexivity|]. exists s.
    rewrite !append_cons, append_nil. symmetry.
    f_equal; [|f_equal]; apply char_of_eq; Z.div_mod_to_equations; lia. }
  destruct ((0xE0 <=? byte_of c0)%Z && (byte_of c0 <? 0xF0)%Z) eqn:H3.
  { apply andb_prop in H3 as [Hl Hh]. apply Z.leb_le in Hl. apply Z.ltb_lt in Hh.
    destruct (continuation 2 (byte_of c0 - 0xE0) s) as [cp'|] eqn:Hk; [|discriminate].
    destruct s as [|c1 s]; [discriminate Hk|].
    apply continuation_S in Hk as [H1 Hk].
    destruct s as [|c2 s]; [discriminate Hk|].
    apply continuation_S in Hk as [H2' Hk]. cbn [continuation] in Hk. injection Hk as <-.
    destruct (0x800 <=? _)%Z eqn:Hmin; cbn [andb]; [|discriminate].
    apply Z.leb_le in Hmin.
    destruct ((0xD800 <=? _)%Z && _); cbn [negb]; [discriminate|].
    intros H. injection H as <- <-.
    unfold utf8_encode.
    rewrite (proj2 (Z.ltb_ge _ 0x80)) by lia. rewrite (proj2 (Z.ltb_ge _ 0x800)) by lia.
    rewrite (proj2 (Z.ltb_lt _ 0x10000)) by lia.
    split; [lia|]. split; [reflexivity|]. exists s.
    rewrite !append_cons, append_nil. symmetry.
    f_equal; [|f_equal; [|f_equal]]; apply char_of_eq; Z.div_mod_to_equations; lia. }
  destruct ((0xF0 <=? byte_of c0)%Z && (byte_of c0 <? 0xF8)%Z) eqn:H4; [|discriminate].
  apply andb_prop in H4 as [Hl Hh]. apply Z.leb_le in Hl. apply Z.ltb_lt in Hh.
  destruct (continuation 3 (byte_of c0 - 0xF0) s) as [cp'|] eqn:Hk; [|discriminate].
  destruct s as [|c1 s]; [discriminate Hk|].
  apply continuation_S in Hk as [H1 Hk].
  destruct s as [|c2 s]; [discriminate Hk|].
  apply continuation_S in Hk as [H2' Hk].
  destruct s as [|c3 s]; [discriminate Hk|].
  apply continuation_S in Hk as [H3' Hk]. cbn [continuation] in Hk. injection Hk as <-.
  destruct ((0x10000 <=? _)%Z && _) eqn:Hmin; [|discriminate].
  apply andb_prop in Hmin as [Hmin Hmax]. apply Z.leb_le in Hmin. apply Z.leb_le in Hmax.
  intros H. injection H as <- <-.
  unfold utf8_encode.
  rewrite (proj2 (Z.ltb_ge _ 0x80)) by lia. rewrite (proj2 (Z.ltb_ge _ 0x800)) by lia.
  rewrite (proj2 (Z.ltb_ge _ 0x10000)) by lia.
  split; [lia|]. split; [reflexivity|]. exists s.
  rewrite !append_cons, append_nil. symmetry.
  f_equal; [|f_equal; [|f_equal; [|f_equal]]]; apply char_of_eq; Z.div_mod_to_equations; lia.
Qed.

Lemma byte_of_char_of (n : Z) : (0 ≤ n < 256)%Z → byte_of (char_of n) = n.
Proof.
  intros Hn. unfold byte_of, char_of. rewrite N_ascii_embedding by lia. lia.
Qed.

(** Settles the first comparison of the goal by arithmetic. *)
Ltac decide_test :=
  match goal with
  | |- context [(?a <? ?b)%Z] =>
      first [rewrite (proj2 (Z.ltb_lt a b)) by (Z.div_mod_to_equations; lia)
            |rewrite (proj2 (Z.ltb_ge a b)) by (Z.div_mod_to_equations; lia)]
  | |- context [(?a <=? ?b)%Z] =>
      first [rewrite (proj2 (Z.leb_le a b)) by (Z.div_mod_to_equations; lia)
            |rewrite (proj2 (Z.leb_gt a b)) by (Z.div_mod_to_equations; lia)]
  end.

(** The UTF-8 form of a character is read back as that character. *)
Lemma utf8_head_of_encode (cp : Z) (rest : string) :
  (0 ≤ cp ≤ 0x10FFFF)%Z → ¬ (0xD800 ≤ cp ≤ 0xDFFF)%Z →
  utf8_head (utf8_encode cp ++ rest) = Some (cp, String.length (utf8_encode cp)).
Proof.
  intros Hcp Hsur. unfold utf8_encode.
  destruct (cp <? 0x80)%Z eqn:H1; [apply Z.ltb_lt in H1|apply Z.ltb_ge in H1].
  { rewrite append_cons. unfold utf8_head. rewrite byte_of_char_of by lia.
    rewrite (proj2 (Z.ltb_lt _ _) H1). reflexivity. }
  destruct (cp <? 0x800)%Z eqn:H2; [apply Z.ltb_lt in H2|apply Z.ltb_ge in H2].
  { rewrite !append_cons. unfold utf8_head. cbn [continuation String.length].
    rewrite !byte_of_char_of by (Z.div_mod_to_equations; lia).
    repeat decide_test. cbn [andb].
    repeat decide_test. do 2 f_equal. Z.div_mod_to_equations. lia. }
  destruct (cp <? 0x10000)%Z eqn:H3; [apply Z.ltb_lt in H3|apply Z.ltb_ge in H3].
  { rewrite !append_cons. unfold utf8_head. cbn [continuation String.length].
    rewrite !byte_of_char_of by (Z.div_mod_to_equations; lia).
    repeat decide_test. cbn [andb].
    assert (Hcp' : (((0xE0 + cp / 4096 - 0xE0) * 64 + (0x80 + (cp / 64) mod 64 - 0x80)) * 64
                    + (0x80 + cp mod 64 - 0x80) = cp)%Z)
      by (Z.div_mod_to_equations; lia).
    rewrite Hcp'.
    destruct ((0xD800 <=? cp)%Z && (cp <=? 0xDFFF)%Z) eqn:Hs.
    - apply andb_prop in Hs as [Ha Hb]. apply Z.leb_le in Ha. apply Z.leb_le in Hb. lia.
    - repeat decide_test. reflexivity. }
  rewrite !append_cons. unfold utf8_head. cbn [continuation String.length].
  rewrite !byte_of_char_of by (Z.div_mod_to_equations; lia).
  repeat decide_test. cbn [andb].
  assert (Hcp' : ((((0xF0 + cp / 262144 - 0xF0) * 64 + (0x80 + (cp / 4096) mod 64 - 0x80)) * 64
                   + (0x80 + (cp / 64) mod 64 - 0x80)) * 64
                  + (0x80 + cp mod 64 - 0x80) = cp)%Z)
    by (Z.div_mod_to_equations; lia).
  rewrite Hcp'. repeat decide_test. reflexivity.
Qed.

(** *** Hexadecimal digits *)

Lemma hex_digit_inj (a b : Z) :
  (0 ≤ a < 16)%Z → (0 ≤ b < 16)%Z → Sha256.hex_digit a = Sha256.hex_digit b → a = b.
Proof.
  intros Ha Hb H. unfold Sha256.hex_digit in H.
  apply (f_equal N_of_ascii) in H.
  destruct (a <? 10)%Z eqn:Ea, (b <? 10)%Z eqn:Eb;
    rewrite !N_ascii_embedding in H by lia; lia.
Qed.

Lemma hex_inj (bs bs' : list Z) :
  Forall (fun b => 0 ≤ b < 256)%Z bs → Forall (fun b => 0 ≤ b < 256)%Z bs' →
  length bs = length bs' →
  Sha256.hex bs = Sha256.hex bs' → bs = bs'.
Proof.
  intros Hbs. revert bs'. induction Hbs as [|b bs Hb _ IH]; intros bs' Hbs' Hlen H;
    destruct Hbs' as [|b' bs' Hb' Hbs']; try discriminate Hlen; [reflexivity|].
  cbn [Sha256.hex] in H. injection H as H1 H2 H.
  apply hex_digit_inj in H1; [|Z.div_mod_to_equations; lia..].
  apply hex_digit_inj in H2; [|Z.div_mod_to_equations; lia..].
  f_equal; [Z.div_mod_to_equations; lia|].
  apply IH; [exact Hbs'|cbn [length] in Hlen; lia|exact H].
Qed.

Lemma be_bytes_bytes (n : nat) (x : Z) :
  Forall (fun b => 0 ≤ b < 256)%Z (Sha256.be_bytes n x).
Proof.
  induction n as [|n IH]; cbn [Sha256.be_bytes]; constructor; [|exact IH].
  apply Z.mod_pos_bound. lia.
Qed.

Lemma length_hex_of (n : nat) (cp : Z) : String.length (hex_of n cp) = (2 * n)%nat.
Proof. unfold hex_of. rewrite length_hex, length_be_bytes. reflexivity. Qed.

Lemma hex_of_inj (n : nat) (cp cp' : Z) :
  (n = 1 ∨ n = 2 ∨ n = 4)%nat →
  (0 ≤ cp < 256 ^ Z.of_nat n)%Z → (0 ≤ cp' < 256 ^ Z.of_nat n)%Z →
  hex_of n cp = hex_of n cp' → cp = cp'.
Proof.
  unfold hex_of. intros Hn Hcp Hcp' H.
  apply hex_inj in H; [|apply be_bytes_bytes..|rewrite !length_be_bytes; reflexivity].
  destruct Hn as [-> | [-> | ->]]; cbn [Sha256.be_bytes] in H;
    change (Z.of_nat 0) with 0%Z in *; change (Z.of_nat 1) with 1%Z in *;
    change (Z.of_nat 2) with 2%Z in *; change (Z.of_nat 3) with 3%Z in *;
    change (Z.of_nat 4) with 4%Z in *;
    change (256 ^ 0)%Z with 1%Z in *; change (256 ^ 1)%Z with 256%Z in *;
    change (256 ^ 2)%Z with 65536%Z in *; change (256 ^ 3)%Z with 16777216%Z in *;
    change (256 ^ 4)%Z with 4294967296%Z in *.
  - injection H as H. Z.div_mod_to_equations. lia.
  - injection H as H1 H2. Z.div_mod_to_equations. lia.
  - injection H as H1 H2 H3 H4. Z.div_mod_to_equations. lia.
Qed.

(** *** Escapes *)

Lemma escape_shape (q : ascii) (cp : Z) (e : string) :
  escape q cp = Some e →
  ∃ k body, e = String backslash (String k body) ∧ escape_form q cp k body.
Proof.
  unfold escape. intros H.
  repeat match type of H with
         | (if ?c then _ else _) = _ => destruct c eqn:?
         end;
    try discriminate H; injection H as <-; eexists _, _; (split; [reflexivity|]).
  - apply form_quote; [reflexivity..|lia].
  - apply form_backslash; [reflexivity..|lia].
  - apply form_t; [reflexivity..|lia].
  - apply form_n; [reflexivity..|lia].
  - apply form_r; [reflexivity..|lia].
  - apply form_x; [reflexivity..|]. apply orb_prop in Heqb4. lia.
  - apply form_x; [reflexivity..|lia].
  - apply form_u; [reflexivity..|lia].
  - apply form_U; [reflexivity..|lia].
Qed.

Lemma escape_form_length (q : ascii) (cp1 cp2 : Z) (k : ascii) (body1 body2 : string) :
  q = squote ∨ q = dquote →
  escape_form q cp1 k body1 → escape_form q cp2 k body2 →
  String.length body1 = String.length body2.
Proof.
  intros Hq H1 H2.
  destruct H1, H2; subst; try reflexivity; try discriminate;
    try (destruct Hq as [Hq|Hq]; discriminate Hq);
    rewrite ?length_hex_of; reflexivity.
Qed.

Lemma escape_form_inj (q : ascii) (cp1 cp2 : Z) (k : ascii) (body : string) :
  q = squote ∨ q = dquote →
  (0 ≤ cp1 ≤ 0x10FFFF)%Z → (0 ≤ cp2 ≤ 0x10FFFF)%Z →
  escape_form q cp1 k body → escape_form q cp2 k body → cp1 = cp2.
Proof.
  intros Hq Hcp1 Hcp2 H1 H2.
  destruct H1 as [Hk1 Hb1 Hc1|Hk1 Hb1 Hc1|Hk1 Hb1 Hc1|Hk1 Hb1 Hc1|Hk1 Hb1 Hc1
                 |Hk1 Hb1 Hc1|Hk1 Hb1 Hc1|Hk1 Hb1 Hc1],
           H2 as [Hk2 Hb2 Hc2|Hk2 Hb2 Hc2|Hk2 Hb2 Hc2|Hk2 Hb2 Hc2|Hk2 Hb2 Hc2
                 |Hk2 Hb2 Hc2|Hk2 Hb2 Hc2|Hk2 Hb2 Hc2];
    try (rewrite Hk1 in Hk2; first [discriminate Hk2 | destruct Hq as [Hq|Hq];
                                     rewrite Hq in Hk2; discriminate Hk2]);
    try (rewrite Hc1, Hc2; reflexivity); rewrite Hb1 in Hb2.
  - apply (hex_of_inj 1); [auto|change (256 ^ Z.of_nat 1)%Z with 256%Z; lia..|exact Hb2].
  - apply (hex_of_inj 2); [auto|change (256 ^ Z.of_nat 2)%Z with 65536%Z; lia..|exact Hb2].
  - apply (hex_of_inj 4); [auto|change (256 ^ Z.of_nat 4)%Z with 4294967296%Z; lia..|exact Hb2].
Qed.

(** No escape is the beginning of another, and an escape tells its
    character. *)
Lemma escape_prefix_free (q : ascii) (cp1 cp2 : Z) (e1 e2 a b : string) :
  q = squote ∨ q = dquote →
  (0 ≤ cp1 ≤ 0x10FFFF)%Z → (0 ≤ cp2 ≤ 0x10FFFF)%Z →
  escape q cp1 = Some e1 → escape q cp2 = Some e2 →
  e1 ++ a = e2 ++ b → cp1 = cp2 ∧ a = b.
Proof.
  intros Hq Hcp1 Hcp2 He1 He2 H.
  destruct (escape_shape _ _ _ He1) as (k1 & body1 & -> & Hf1).
  destruct (escape_shape _ _ _ He2) as (k2 & body2 & -> & Hf2).
  rewrite !append_cons in H. injection H as <- H.
  destruct (append_same_length body1 body2 a b) as [<- <-];
    [exact (escape_form_length _ _ _ _ _ _ Hq Hf1 Hf2)|exact H|].
  split; [|reflexivity]. exact (escape_form_inj _ _ _ _ _ Hq Hcp1 Hcp2 Hf1 Hf2).
Qed.

(** *** The characters between the quotes *)

Lemma repr_chars_skip (q : ascii) (u rest : string) :
  repr_chars q (String.length u) (u ++ rest) = repr_chars q 0 rest.
Proof.
  induction u as [|c u IH]; [rewrite append_nil; reflexivity|].
  rewrite append_cons. cbn [String.length repr_chars]. exact IH.
Qed.

Lemma utf8_encode_cons (cp : Z) : ∃ c u, utf8_encode cp = String c u.
Proof.
  unfold utf8_encode.
  destruct (cp <? 0x80)%Z; [eauto|]. destruct (cp <? 0x800)%Z; [eauto|].
  destruct (cp <? 0x10000)%Z; eauto.
Qed.

Lemma utf8_head_ascii (c : ascii) (rest : string) :
  (byte_of c < 0x80)%Z → utf8_head (String c rest) = Some (byte_of c, 1%nat).
Proof.
  intros Hc. unfold utf8_head. rewrite (proj2 (Z.ltb_lt _ _) Hc). reflexivity.
Qed.

Lemma escape_quote (q : ascii) : ∃ e, escape q (byte_of q) = Some e.
Proof. unfold escape. rewrite Z.eqb_refl. eauto. Qed.

Lemma escape_backslash (q : ascii) : ∃ e, escape q (byte_of backslash) = Some e.
Proof.
  unfold escape. destruct (byte_of backslash =? byte_of q)%Z; [eauto|].
  rewrite Z.eqb_refl. eauto.
Qed.

(** What [repr_chars] does at the head of a text: it writes the escape of
    the character found there and goes on after its bytes, or it copies one
    byte, which is neither the quote nor a backslash. *)
Lemma repr_chars_head (q c : ascii) (rest : string) :
  q = squote ∨ q = dquote →
  (∃ cp e rest',
      (0 ≤ cp ≤ 0x10FFFF)%Z ∧ escape q cp = Some e ∧
      String c rest = utf8_encode cp ++ rest' ∧
      repr_chars q 0 (String c rest) = e ++ repr_chars q 0 rest')
  ∨ (c ≠ q ∧ c ≠ backslash ∧
     repr_chars q 0 (String c rest) = String c (repr_chars q 0 rest)).
Proof.
  intros Hq.
  assert (Hqb : (byte_of q < 0x80)%Z) by (destruct Hq as [-> | ->]; vm_compute; reflexivity).
  assert (Hplain : ∀ cp n, utf8_head (String c rest) = Some (cp, n) →
                           escape q cp = None → c ≠ q ∧ c ≠ backslash).
  { intros cp n Hh He. split; intros ->.
    - rewrite utf8_head_ascii in Hh by exact Hqb. injection Hh as <- <-.
      destruct (escape_quote q) as [e He']. congruence.
    - rewrite utf8_head_ascii in Hh by (vm_compute; reflexivity). injection Hh as <- <-.
      destruct (escape_backslash q) as [e He']. congruence. }
  cbn [repr_chars].
  destruct (utf8_head (String c rest)) as [[cp n]|] eqn:Hh.
  - destruct (escape q cp) as [e|] eqn:He.
    + left. destruct (utf8_head_encode _ _ _ Hh) as (Hcp & Hlen & rest' & Hs).
      exists cp, e, rest'. split; [exact Hcp|]. split; [exact He|].
      split; [exact Hs|].
      destruct (utf8_encode_cons cp) as (c' & u & Hu). rewrite Hu in Hs, Hlen.
      rewrite append_cons in Hs. injection Hs as -> ->.
      cbn [String.length] in Hlen. subst n.
      replace (S (String.length u) - 1)%nat with (String.length u) by lia.
      rewrite repr_chars_skip. reflexivity.
    + right. destruct (Hplain cp n eq_refl He) as [H1 H2]. auto.
  - right. split; [|split; [|reflexivity]]; intros ->.
    + rewrite utf8_head_ascii in Hh by exact Hqb. discriminate Hh.
    + rewrite utf8_head_ascii in Hh by (vm_compute; reflexivity). discriminate Hh.
Qed.

Lemma escape_begins (q : ascii) (cp : Z) (e : string) :
  escape q cp = Some e → ∃ e', e = String backslash e'.
Proof. intros H. destruct (escape_shape _ _ _ H) as (k & body & -> & _). eauto. Qed.

(** The characters of a text can be told from what [repr] writes between
    the quotes, closing quote included. *)
Lemma repr_chars_prefix_free (q : ascii) (n : nat) :
  q = squote ∨ q = dquote →
  ∀ s1 s2 x y,
    (String.length s1 ≤ n)%nat →
    repr_chars q 0 s1 ++ String q x = repr_chars q 0 s2 ++ String q y →
    s1 = s2 ∧ x = y.
Proof.
  intros Hq.
  assert (Hqb : q ≠ backslash) by (destruct Hq as [-> | ->]; discriminate).
  induction n as [|n IH]; intros s1 s2 x y Hlen H.
  - destruct s1; [|cbn [String.length] in Hlen; lia].
    destruct s2 as [|c2 r2];
      [change (repr_chars q 0 "") with "" in H; rewrite !append_nil in H;
       injection H as <-; auto|].
    exfalso. change (repr_chars q 0 "") with "" in H. rewrite append_nil in H.
    destruct (repr_chars_head q c2 r2 Hq)
      as [(cp & e & r' & _ & He & _ & Hr) | (Hc & _ & Hr)]; rewrite Hr in H.
    + destruct (escape_begins _ _ _ He) as [e' ->].
      rewrite !append_cons in H. injection H as H _. exact (Hqb H).
    + rewrite append_cons in H. injection H as H _. congruence.
  - destruct s1 as [|c1 r1].
    { apply (IH "" s2 x y); [cbn; lia|exact H]. }
    destruct s2 as [|c2 r2].
    { exfalso. change (repr_chars q 0 "") with "" in H. rewrite append_nil in H.
      destruct (repr_chars_head q c1 r1 Hq)
        as [(cp & e & r' & _ & He & _ & Hr) | (Hc & _ & Hr)]; rewrite Hr in H.
      - destruct (escape_begins _ _ _ He) as [e' ->].
        rewrite !append_cons in H. injection H as H _. exact (Hqb (eq_sym H)).
      - rewrite append_cons in H. injection H as H _. congruence. }
    destruct (repr_chars_head q c1 r1 Hq)
      as [(cp1 & e1 & r1' & Hcp1 & He1 & Hs1 & Hr1) | (Hc1 & Hb1 & Hr1)];
      destruct (repr_chars_head q c2 r2 Hq)
        as [(cp2 & e2 & r2' & Hcp2 & He2 & Hs2 & Hr2) | (Hc2 & Hb2 & Hr2)];
      rewrite Hr1, Hr2 in H.
    + rewrite !append_assoc in H.
      destruct (escape_prefix_free _ _ _ _ _ _ _ Hq Hcp1 Hcp2 He1 He2 H) as [<- H'].
      rewrite Hs1, Hs2.
      destruct (IH r1' r2' x y) as [-> ->]; [|exact H'|auto].
      apply (f_equal String.length) in Hs1. rewrite length_append in Hs1.
      destruct (utf8_encode_cons cp1) as (c' & u & Hu). rewrite Hu in Hs1.
      cbn [String.length] in Hs1, Hlen. lia.
    + exfalso. destruct (escape_begins _ _ _ He1) as [e' ->].
      rewrite !append_cons in H. injection H as H _. congruence.
    + exfalso. destruct (escape_begins _ _ _ He2) as [e' ->].
      rewrite !append_cons in H. injection H as H _. congruence.
    + rewrite !append_cons in H. injection H as <- H.
      destruct (IH r1 r2 x y) as [-> ->]; [cbn [String.length] in Hlen; lia|exact H|auto].
Qed.

Lemma repr_str_append (s rest : string) :
  ∃ q, (q = squote ∨ q = dquote) ∧
       repr_str s ++ rest = String q (repr_chars q 0 s ++ String q rest).
Proof.
  unfold repr_str.
  destruct (contains squote s && negb (contains dquote s));
    [exists dquote|exists squote]; (split; [auto|]);
    rewrite append_cons, append_assoc, append_cons, append_nil; reflexivity.
Qed.

(** No [repr] of a text is the beginning of another: what is written after
    it can be told from it. *)
Lemma repr_str_prefix_free (s1 s2 x y : string) :
  repr_str s1 ++ x = repr_str s2 ++ y → s1 = s2 ∧ x = y.
Proof.
  destruct (repr_str_append s1 x) as (q1 & Hq1 & ->).
  destruct (repr_str_append s2 y) as (q2 & Hq2 & ->).
  intros H. injection H as <- H.
  exact (repr_chars_prefix_free q1 (String.length s1) Hq1 s1 s2 x y (le_n _) H).
Qed.

(** The text of a [Record] of three texts can be read back, with what
    follows it. *)
Lemma str_record_prefix_free (s1 r1 a1 s2 r2 a2 x y : string) :
  str_record (Transaction (mkRecord s1 r1 (AmountText a1))) ++ x
  = str_record (Transaction (mkRecord s2 r2 (AmountText a2))) ++ y →
  s1 = s2 ∧ r1 = r2 ∧ a1 = a2 ∧ x = y.
Proof.
  cbn [str_record str_amount sender receiver amount]. rewrite !append_assoc.
  intros H.
  apply append_cancel_l in H. apply repr_str_prefix_free in H as [-> H].
  apply append_cancel_l in H. apply repr_str_prefix_free in H as [-> H].
  apply append_cancel_l in H. apply repr_str_prefix_free in H as [-> H].
  apply append_cancel_l in H. repeat split. exact H.
Qed.

End Reading.

(** X11. Changing one field of a block changes the bytes that are hashed:
    two blocks that differ only in creator_id, only in timestamp, only in
    prev_hash or only in nonce have different digest inputs, and so have
    two blocks that differ only in their record when both records are a
    [Record] of three texts (sender, receiver, amount). *)
Theorem hash_input_tells_one_field_apart :
  (∀ r c1 c2 p t n,
     hash_input (mkBlock r c1 p t n) = hash_input (mkBlock r c2 p t n) → c1 = c2) ∧
  (∀ r c p t1 t2 n,
     hash_input (mkBlock r c p t1 n) = hash_input (mkBlock r c p t2 n) → t1 = t2) ∧
  (∀ r c p1 p2 t n,
     hash_input (mkBlock r c p1 t n) = hash_input (mkBlock r c p2 t n) → p1 = p2) ∧
  (∀ r c p t n1 n2,
     hash_input (mkBlock r c p t n1) = hash_input (mkBlock r c p t n2) → n1 = n2) ∧
  (∀ s1 r1 a1 s2 r2 a2 c p t n,
     hash_input (mkBlock (Transaction (mkRecord s1 r1 (AmountText a1))) c p t n)
     = hash_input (mkBlock (Transaction (mkRecord s2 r2 (AmountText a2))) c p t n) →
     s1 = s2 ∧ r1 = r2 ∧ a1 = a2).
Proof.
  split; [|split; [|split; [|split]]].
  - intros r c1 c2 p t n H. rewrite !hash_input_concat in H.
    cbn [record creator_id prev_hash timestamp nonce] in H.
    apply append_cancel_l in H. apply append_cancel_r in H.
    exact (str_int_inj _ _ H).
  - intros r c p t1 t2 n H. rewrite !hash_input_concat in H.
    cbn [record creator_id prev_hash timestamp nonce] in H.
    do 2 apply append_cancel_l in H. exact (append_cancel_r _ _ _ H).
  - intros r c p1 p2 t n H. rewrite !hash_input_concat in H.
    cbn [record creator_id prev_hash timestamp nonce] in H.
    do 3 apply append_cancel_l in H. exact (append_cancel_r _ _ _ H).
  - intros r c p t n1 n2 H. rewrite !hash_input_concat in H.
    cbn [record creator_id prev_hash timestamp nonce] in H.
    do 4 apply append_cancel_l in H. exact (str_int_inj _ _ H).
  - intros s1 r1 a1 s2 r2 a2 c p t n H. rewrite !hash_input_concat in H.
    cbn [record creator_id prev_hash timestamp nonce] in H.
    apply str_record_prefix_free in H as (-> & -> & -> & _). repeat split.
Qed.

(** X12. Among the blocks that the interface appends the bytes that are
    hashed tell the blocks apart: two such blocks with the same digest input
    are equal in every field. (The fixed creator_id, the clock string of 8
    characters and the prev_hash of 64 leave no room for a shift of the
    field boundaries.) *)
Theorem interface_blocks_have_distinct_inputs (b1 b2 : Block) :
  interface_block b1 →
  interface_block b2 →
  hash_input b1 = hash_input b2 →
  b1 = b2.
Proof.
  intros ((s1 & r1 & a1 & Hrec1) & Hc1 & Ht1 & Hp1 & _)
         ((s2 & r2 & a2 & Hrec2) & Hc2 & Ht2 & Hp2 & _) H.
  rewrite !hash_input_concat in H.
  destruct b1 as [rec1 c1 p1 t1 n1], b2 as [rec2 c2 p2 t2 n2].
  cbn [record creator_id prev_hash timestamp nonce] in *. subst.
  apply str_record_prefix_free in H as (-> & -> & -> & H).
  apply append_cancel_l in H.
  apply append_same_length in H as [-> H]; [|congruence].
  apply append_same_length in H as [-> H]; [|congruence].
  apply str_int_inj in H as ->. reflexivity.
Qed.

Lemma sample_interface_block : interface_block (set_nonce sample_candidate 3).
Proof.
  split; [exists "a"%string, "b"%string, "10"%string; reflexivity|].
  split; [reflexivity|]. split; [vm_compute; reflexivity|].
  split; vm_compute; reflexivity.
Defined.

Lemma interface_blocks_have_distinct_inputs_witness :
  set_nonce sample_candidate 3 = set_nonce sample_candidate 3.
Proof.
  exact (interface_blocks_have_distinct_inputs _ _
           sample_interface_block sample_interface_block eq_refl).
Defined.

(** ** Handing over a block that is not linked *)

(** X13. [add_block] appends any block object, one that the chain holds
    already included. When the prev_hash of that block has not the 64
    characters of a digest (the '0' of the genesis block, or of a block
    constructed without prev_hash), the chain that results does not
    validate: handing the genesis block to [add_block] again breaks the
    chain. *)
Theorem add_block_of_unlinked_block
    (fuel : nat) (l : loc) (s s' : state) (b : Block) :
  closed s →
  chain (pychain s) ≠ [] →
  objects s !! l = Some b →
  String.length (prev_hash b) ≠ 64%nat →
  add_block fuel l s = Returns s' →
  is_valid s' = Returns false.
Proof.
  intros Hclosed Hne Hb Hlen Hadd.
  destruct (add_block_returns _ _ _ _ Hadd) as (b0 & m & Hb0 & _ & ->).
  rewrite Hb in Hb0. injection Hb0 as <-.
  set (s1 := mkState (<[l := set_nonce b m]> (objects s))
                     (mkPyChain (chain (pychain s) ++ [l]) (difficulty (pychain s)))).
  assert (Hclosed1 : closed s1).
  { intros l0 Hl0. cbn [s1 objects pychain chain] in Hl0 |- *.
    destruct (decide (l = l0)) as [<-|Hn].
    - rewrite lookup_insert_eq. eauto.
    - rewrite lookup_insert_ne by exact Hn.
      apply elem_of_app in Hl0 as [Hl0|Hl0]; [apply Hclosed, Hl0|].
      apply list_elem_of_singleton in Hl0. congruence. }
  assert (Hne1 : chain (pychain s1) ≠ []).
  { cbn [s1 pychain chain]. intros H. apply app_eq_nil in H as [_ H]. discriminate H. }
  destruct (is_valid_linked s1 Hclosed1 Hne1) as [[v Hv] Hiff].
  rewrite Hv. destruct v; [|reflexivity]. exfalso.
  pose proof (proj1 Hiff Hv (pred (length (chain (pychain s))))) as Hlinked.
  destruct (last (chain (pychain s))) as [tail|] eqn:Hlast;
    [|apply last_None in Hlast; congruence].
  assert (Hpos : (0 < length (chain (pychain s)))%nat).
  { destruct (chain (pychain s)); [congruence|cbn; lia]. }
  rewrite last_lookup in Hlast.
  destruct (Hclosed1 tail) as [tb Htb].
  { cbn [s1 pychain chain]. apply elem_of_app. left.
    exact (list_elem_of_lookup_2 _ _ _ Hlast). }
  apply Hlen. rewrite <- (length_hash_block tb).
  change (prev_hash b) with (prev_hash (set_nonce b m)). f_equal.
  apply Hlinked; unfold block_at; cbn [s1 objects pychain chain].
  - rewrite (lookup_app_l_Some _ _ _ _ Hlast). exact Htb.
  - replace (S (pred (length (chain (pychain s))))) with (length (chain (pychain s))) by lia.
    rewrite list_lookup_middle by reflexivity. cbn. apply lookup_insert_eq.
Qed.

Lemma add_block_of_unlinked_block_witness :
  is_valid (mkState {[ 0%nat := set_nonce (genesis (define_Block 1699000206)) 6 ]}
                    (mkPyChain [0%nat; 0%nat] 1))
  = Returns false.
Proof.
  apply (add_block_of_unlinked_block 6 0%nat
           (set_difficulty 1 (setup (define_Block 1699000206))) _
           (genesis (define_Block 1699000206))).
  - intros l Hl. apply list_elem_of_singleton in Hl as ->. vm_compute. eauto.
  - discriminate.
  - vm_compute. reflexivity.
  - intros H. vm_compute in H. discriminate H.
  - vm_compute. reflexivity.
Defined.
